(** * SOTC loader: resource registries of [src/os/loadersys.c]

    A shallow embedding of the C functions of [loadersys.c] that are
    written in C (the rest of the translation unit is still assembly):

    - [LoaderSysDeleteExternalThreadList] and
      [LoaderSysDeleteExternalSemaList], deletion by value from the two
      256-slot handle tables [thread_list] and [sema_list];
    - [LoaderSysChangeExternalThreadPriorityExceptMe], the bulk priority
      change over [thread_list];
    - [checkHookDesc], the test for the ["host0:"] prefix.

    Conventions.  An [s32] is a [Z]; the registry functions only compare
    and copy such values, so nothing wraps there.  The one addition on a
    32-bit value, [(int)hook_desc + 6], has its wrap-around written out
    ([to_s32]).  A C array is a [list Z] read with [!!] and written with
    [<[i:=v]>]; an access outside the list is a fault ([None]), and the
    theorems show that the loops never fault on a 256-slot table. *)

From Stdlib Require Import ZArith Lia Ascii String.
From stdpp Require Import base option list strings.

Local Open Scope Z_scope.

(** ** Machine state *)

(** [#define THREAD_LIST_LEN 256] and [#define SEMA_LIST_LEN 256]. *)
Definition THREAD_LIST_LEN : nat := 256.
Definition SEMA_LIST_LEN : nat := 256.

(** The globals of the translation unit that the C functions touch:
    [s32 thread_list[THREAD_LIST_LEN]], [s32 sema_list[SEMA_LIST_LEN]],
    and the byte-addressed memory that [char *] arguments point into. *)
Record machine : Type := Machine {
  thread_list : list Z;
  sema_list : list Z;
  ram : Z → ascii
}.

Definition set_thread_list (l : list Z) (m : machine) : machine :=
  {| thread_list := l; sema_list := sema_list m; ram := ram m |}.

Definition set_sema_list (l : list Z) (m : machine) : machine :=
  {| thread_list := thread_list m; sema_list := l; ram := ram m |}.

(** The arrays have the declared number of elements. *)
Definition wf_machine (m : machine) : Prop :=
  length (thread_list m) = THREAD_LIST_LEN ∧
  length (sema_list m) = SEMA_LIST_LEN.

(** ** Deletion by value *)

(** The loop
<<
    for (i = ...; i < LEN; i++) {
        if (list[i] == id) { list[i] = -1; return id; }
    }
    return -1;
>>
    entered at index [i] with [n] iterations left ([i + n = LEN]).  The
    result is the returned value and the array after the call; [None] is
    an access outside the array. *)
Fixpoint delete_scan (n i : nat) (id : Z) (l : list Z) : option (Z * list Z) :=
  match n with
  | O => Some (-1, l)
  | S n' =>
      match l !! i with
      | None => None
      | Some v =>
          if bool_decide (v = id)
          then Some (id, <[i := -1]> l)
          else delete_scan n' (S i) id l
      end
  end.

(** [s32 LoaderSysDeleteExternalThreadList(s32 threadId)] *)
Definition LoaderSysDeleteExternalThreadList (threadId : Z) (m : machine)
  : option (Z * machine) :=
  match delete_scan THREAD_LIST_LEN 0 threadId (thread_list m) with
  | Some (r, l) => Some (r, set_thread_list l m)
  | None => None
  end.

(** [s32 LoaderSysDeleteExternalSemaList(s32 param_1)] *)
Definition LoaderSysDeleteExternalSemaList (param_1 : Z) (m : machine)
  : option (Z * machine) :=
  match delete_scan SEMA_LIST_LEN 0 param_1 (sema_list m) with
  | Some (r, l) => Some (r, set_sema_list l m)
  | None => None
  end.

(** The number of slots of a table that hold [v]. *)
Definition occurrences (v : Z) (l : list Z) : nat :=
  length (filter (λ x, x = v) l).

(** The invariant of a registry: a handle (any value but the [-1] of an
    empty slot) is in at most one slot. *)
Definition unique_handles (l : list Z) : Prop :=
  ∀ i j v, l !! i = Some v → l !! j = Some v → v ≠ -1 → i = j.

(** A table in which one slot holds [5], a later one holds [x], a later
    one holds [5] again, and every other slot is empty; [a], [b], [c] and
    [d] are the numbers of empty slots before, between and after. *)
Definition pattern_5_x_5 (a b c d : nat) (x : Z) : list Z :=
  (replicate a (-1) ++ 5 :: replicate b (-1))
  ++ x :: (replicate c (-1) ++ 5 :: replicate d (-1)).

(** Memory that holds NUL everywhere. *)
Definition blank_ram : Z → ascii := λ _, zero.

(** The machine with the given tables and blank memory. *)
Definition machine_of (threads semas : list Z) : machine :=
  {| thread_list := threads; sema_list := semas; ram := blank_ram |}.

(** ** Kernel calls

    [GetThreadId] and [ChangeThreadPriority] are calls into the kernel,
    which is not part of the translation unit.  A function that issues
    them is embedded as a tree: a result, a fault, or a call together with
    the continuation that receives the value the kernel returns. *)
Inductive syscall : Type :=
  | GetThreadId
  | ChangeThreadPriority (thread_id priority : Z).

#[export] Instance syscall_eq_dec : EqDecision syscall.
Proof. solve_decision. Defined.

Inductive proc (A : Type) : Type :=
  | Ret (a : A)
  | Fault
  | Call (c : syscall) (k : Z → proc A).

Arguments Ret {A} a.
Arguments Fault {A}.
Arguments Call {A} c k.

Fixpoint bind {A B : Type} (p : proc A) (f : A → proc B) : proc B :=
  match p with
  | Ret a => f a
  | Fault => Fault
  | Call c k => Call c (λ r, bind (k r) f)
  end.

Definition sys (c : syscall) : proc Z := Call c Ret.

#[export] Instance proc_ret : MRet proc := @Ret.
#[export] Instance proc_bind : MBind proc := λ A B f p, bind p f.

(** One kernel call as seen from outside: the call and the value it
    returned. *)
Definition event : Type := syscall * Z.

(** Running a tree against a kernel.  The kernel is any state [K] with a
    transition [kstep] that answers a call; the run yields the result
    ([None] after a fault), the kernel state and the calls made, oldest
    first. *)
Fixpoint run {K A : Type} (kstep : syscall → K → Z * K) (p : proc A) (k : K)
  : option A * K * list event :=
  match p with
  | Ret a => (Some a, k, [])
  | Fault => (None, k, [])
  | Call c f =>
      let '(r, k1) := kstep c k in
      let '(a, k2, t) := run kstep (f r) k1 in
      (a, k2, (c, r) :: t)
  end.

(** The calls of a run, without the values returned. *)
Definition calls (t : list event) : list syscall := t.*1.

(** The smallest kernel: its state is the id of the running thread, which
    [GetThreadId] returns; [ChangeThreadPriority] returns 0. *)
Definition kernel_of_thread (c : syscall) (running : Z) : Z * Z :=
  match c with
  | GetThreadId => (running, running)
  | ChangeThreadPriority _ _ => (0, running)
  end.

(** The test of the loop body of
    [LoaderSysChangeExternalThreadPriorityExceptMe] on a slot value:
    [(thread_list[i] != thread_id) && (-1 < thread_list[i])]. *)
Definition visited (thread_id v : Z) : Prop := v ≠ thread_id ∧ -1 < v.

#[export] Instance visited_dec (thread_id v : Z) : Decision (visited thread_id v) :=
  (_ : Decision (v ≠ thread_id ∧ -1 < v)).

(** The loop of [LoaderSysChangeExternalThreadPriorityExceptMe]
<<
    for (i = ...; i < THREAD_LIST_LEN; i++) {
        if ((thread_list[i] != thread_id) && (-1 < thread_list[i])) {
            ChangeThreadPriority(thread_list[i], priority);
        }
    }
>>
    entered at index [i] with [n] iterations left.  The value returned by
    [ChangeThreadPriority] is dropped, as in the source. *)
Fixpoint change_priority_loop (n i : nat) (thread_id priority : Z) (m : machine)
  : proc machine :=
  match n with
  | O => Ret m
  | S n' =>
      match thread_list m !! i with
      | None => Fault
      | Some v =>
          if bool_decide (v ≠ thread_id) && bool_decide (-1 < v)
          then sys (ChangeThreadPriority v priority) ;;
               change_priority_loop n' (S i) thread_id priority m
          else change_priority_loop n' (S i) thread_id priority m
      end
  end.

(** [void LoaderSysChangeExternalThreadPriorityExceptMe(s32 priority)] *)
Definition LoaderSysChangeExternalThreadPriorityExceptMe (priority : Z)
  (m : machine) : proc machine :=
  thread_id ← sys GetThreadId;
  change_priority_loop THREAD_LIST_LEN 0 thread_id priority m.

(** ** The hook descriptor *)

(** Reinterpretation of an integer as a signed 32-bit value. *)
Definition to_s32 (z : Z) : Z := (z + 2 ^ 31) mod 2 ^ 32 - 2 ^ 31.

(** The characters of the C string that starts at address [p]. *)
Definition chars_at (m : machine) (p : Z) : nat → ascii :=
  λ k, ram m (p + Z.of_nat k).

(** The characters of a string literal; past its end reads as NUL, the
    terminator. *)
Definition chars_of (s : string) : nat → ascii :=
  λ k, nth k (list_ascii_of_string s) zero.

(** A character as an [unsigned char]. *)
Definition code (c : ascii) : Z := Z.of_nat (nat_of_ascii c).

(** [strncmp] of the C library, from offset [k] with [n] characters left:
    the difference of the first pair of differing characters (as
    [unsigned char]), and [0] when a NUL or the limit is reached first. *)
Fixpoint strncmp_from (s1 s2 : nat → ascii) (k n : nat) : Z :=
  match n with
  | O => 0
  | S n' =>
      if bool_decide (s1 k ≠ s2 k) then code (s1 k) - code (s2 k)
      else if bool_decide (s1 k = zero) then 0
      else strncmp_from s1 s2 (S k) n'
  end.

Definition strncmp (s1 s2 : nat → ascii) (n : nat) : Z := strncmp_from s1 s2 0 n.

(** [s32 checkHookDesc(char *hook_desc)].  The pointer is its address;
    [(int)hook_desc + 6] is a 32-bit addition. *)
Definition checkHookDesc (hook_desc : Z) (m : machine) : Z * machine :=
  let lVar1 := strncmp (chars_at m hook_desc) (chars_of "host0:") 6 in
  let iVar2 := to_s32 (to_s32 hook_desc + 6) in
  if bool_decide (lVar1 = 0) then (iVar2, m) else (0, m).

(** The first six characters of the string at [p] are those of
    ["host0:"]. *)
Definition starts_with_host0 (m : machine) (p : Z) : Prop :=
  ∀ k, (k < 6)%nat → chars_at m p k = chars_of "host0:" k.

(** Memory that holds the characters of [s] from address [base] on, and
    NUL everywhere else. *)
Definition ram_of_string (base : Z) (s : string) : Z → ascii :=
  λ a, if bool_decide (base ≤ a)
       then nth (Z.to_nat (a - base)) (list_ascii_of_string s) zero
       else zero.

(** ** The recovery controller

    [LoaderSysJumpRecoverPoint] and the functions it calls are still
    assembly in [loadersys.c]; the teardown is described by the
    specification only. *)
Module Recovery.

(** Modelled from the spec: the saved processor context of a recovery
    point (the functions that capture and restore it are assembly):
    program counter and stack pointer. *)
Record context : Type := Context { pc : Z; sp : Z }.

(** Modelled from the spec: the effects of the teardown on the OS
    primitive interface (the teardown functions are assembly), one
    constructor per step of [recoverAndJump]. *)
Inductive action : Type :=
  | DeleteIntcHandler (h : Z)
  | TerminateThread (h : Z)
  | DeleteSema (h : Z)
  | ReleaseMemory (h : Z)
  | RestoreContext (c : context).

(** Modelled from the spec: the state the recovery controller works on
    (its code is assembly): the four registries, slot tables that hold
    a handle or the sentinel [-1]; the recovery point, of which at most
    one is live; the thread that is running, the caller; and the log of
    the actions taken so far, oldest first. *)
Record state : Type := State {
  handlers : list Z;
  threads : list Z;
  semas : list Z;
  blocks : list Z;
  point : option context;
  running : Z;
  log : list action
}.

(** Modelled from the spec: how control leaves [recoverAndJump] (the
    jump is assembly): execution resumes at the captured context, or,
    when no recovery point was captured, comes back to the caller. *)
Inductive outcome : Type :=
  | Resumed (c : context) (s : state)
  | Returned (s : state).

Definition final_state (o : outcome) : state :=
  match o with
  | Resumed _ s => s
  | Returned s => s
  end.

(** Modelled from the spec: the teardown of one registry (the
    [LoaderSysDeleteAllExternal...] functions are assembly).  The slots
    are visited in order; an empty slot and a slot to keep are left as
    they are; any other slot is released, which is logged, and cleared
    to the sentinel. *)
Fixpoint release_all (act : Z → action) (keep : Z → bool) (l : list Z)
  : list action * list Z :=
  match l with
  | [] => ([], [])
  | v :: l' =>
      let '(a, r) := release_all act keep l' in
      if bool_decide (v = -1) then (a, v :: r)
      else if keep v then (a, v :: r)
      else (act v :: a, -1 :: r)
  end.

(** Modelled from the spec: step (1) of [recoverAndJump], delete every
    registered interrupt handler (assembly in the source). *)
Definition delete_handlers (s : state) : state :=
  let w := release_all DeleteIntcHandler (λ _, false) (handlers s) in
  {| handlers := w.2; threads := threads s; semas := semas s;
     blocks := blocks s; point := point s; running := running s;
     log := log s ++ w.1 |}.

(** Modelled from the spec: step (2), terminate every registered thread
    except the caller (assembly in the source). *)
Definition terminate_threads (s : state) : state :=
  let w := release_all TerminateThread
             (λ v, bool_decide (v = running s)) (threads s) in
  {| handlers := handlers s; threads := w.2; semas := semas s;
     blocks := blocks s; point := point s; running := running s;
     log := log s ++ w.1 |}.

(** Modelled from the spec: step (3), delete every registered semaphore
    (assembly in the source). *)
Definition delete_semaphores (s : state) : state :=
  let w := release_all DeleteSema (λ _, false) (semas s) in
  {| handlers := handlers s; threads := threads s; semas := w.2;
     blocks := blocks s; point := point s; running := running s;
     log := log s ++ w.1 |}.

(** Modelled from the spec: step (4), release every reserved memory block
    (assembly in the source). *)
Definition release_memory (s : state) : state :=
  let w := release_all ReleaseMemory (λ _, false) (blocks s) in
  {| handlers := handlers s; threads := threads s; semas := semas s;
     blocks := w.2; point := point s; running := running s;
     log := log s ++ w.1 |}.

(** Modelled from the spec: step (5), restore the captured context and
    resume execution there (assembly in the source). *)
Definition restore_context (s : state) : outcome :=
  match point s with
  | Some c =>
      Resumed c
        {| handlers := handlers s; threads := threads s; semas := semas s;
           blocks := blocks s; point := point s; running := running s;
           log := log s ++ [RestoreContext c] |}
  | None => Returned s
  end.

(** Modelled from the spec: [recoverAndJump()]
    ([LoaderSysJumpRecoverPoint], assembly in the source), section 4.5:
    the five steps, one after the other. *)
Definition recoverAndJump (s : state) : outcome :=
  restore_context
    (release_memory (delete_semaphores (terminate_threads (delete_handlers s)))).

(** The step of the teardown an action belongs to. *)
Definition step_of (a : action) : nat :=
  match a with
  | DeleteIntcHandler _ => 1
  | TerminateThread _ => 2
  | DeleteSema _ => 3
  | ReleaseMemory _ => 4
  | RestoreContext _ => 5
  end.

(** A log is in order when an action of an earlier step never comes
    after an action of a later step. *)
Definition in_order (t : list action) : Prop :=
  ∀ i j x y, t !! i = Some x → t !! j = Some y →
             (step_of x < step_of y)%nat → (i < j)%nat.

End Recovery.

(** ** Functional descriptions of a deletion

    What [delete_scan] computes on a whole table, by recursion on the
    table: the table with the first slot that holds [h] cleared, and the
    value returned.  The loop is proved equal to them below. *)
Fixpoint clear_first (h : Z) (l : list Z) : list Z :=
  match l with
  | [] => []
  | v :: l' => if decide (v = h) then -1 :: l' else v :: clear_first h l'
  end.

Definition found (h : Z) (l : list Z) : Z := if decide (h ∈ l) then h else -1.

(** [n] calls of a delete function in a row with the same handle, as a
    caller that drains duplicates makes them: the values returned, oldest
    first, and the machine after the last call. *)
Fixpoint delete_times (del : Z → machine → option (Z * machine))
  (n : nat) (h : Z) (m : machine) : option (list Z * machine) :=
  match n with
  | O => Some ([], m)
  | S n' =>
      '(r, m1) ← del h m;
      '(rs, m2) ← delete_times del n' h m1;
      Some (r :: rs, m2)
  end.

(** The calls [LoaderSysChangeExternalThreadPriorityExceptMe] makes on a
    kernel, and how many of them change the priority of [h]. *)
Definition priority_calls {K : Type} (kstep : syscall → K → Z * K) (k : K)
  (priority : Z) (m : machine) : list syscall :=
  calls (run kstep (LoaderSysChangeExternalThreadPriorityExceptMe priority m) k).2.

Definition calls_for (h priority : Z) (cs : list syscall) : nat :=
  length (filter (λ c, c = ChangeThreadPriority h priority) cs).

(** ** The scan *)

(** Closes a decidable goal on concrete data by evaluation. *)
Ltac by_evaluation := refine (bool_decide_unpack _ _); vm_compute; exact I.

Section Scan.
Implicit Types (l : list Z) (id v : Z) (n i j : nat).

(** On a table long enough for the remaining iterations the scan either
    finds nothing, or stops at the lowest index that holds [id]. *)
Lemma delete_scan_cases n i id l :
  (i + n ≤ length l)%nat →
  (delete_scan n i id l = Some (-1, l) ∧
   ∀ j, (i ≤ j < i + n)%nat → l !! j ≠ Some id)
  ∨ (∃ j, (i ≤ j < i + n)%nat ∧ l !! j = Some id ∧
          (∀ j', (i ≤ j' < j)%nat → l !! j' ≠ Some id) ∧
          delete_scan n i id l = Some (id, <[j := -1]> l)).
Proof.
  revert i. induction n as [|n IH]; intros i Hlen.
  - left. split; [reflexivity | intros j Hj; lia].
  - destruct (lookup_lt_is_Some_2 l i) as [v Hv]; [lia|].
    simpl. rewrite Hv. case_bool_decide as Heq.
    + subst v. right. exists i.
      split; [lia|]. split; [done|]. split; [intros; lia | done].
    + destruct (IH (S i)) as [[Hr Hall] | (j & Hj & Hjv & Hlow & Hr)]; [lia | |].
      * left. split; [done|]. intros j Hj.
        destruct (decide (j = i)) as [->|]; [congruence | apply Hall; lia].
      * right. exists j.
        split; [lia|]. split; [done|]. split; [|done].
        intros j' Hj'. destruct (decide (j' = i)) as [->|]; [congruence | apply Hlow; lia].
Qed.

Lemma delete_scan_absent n i id l :
  (i + n ≤ length l)%nat →
  (∀ j, (i ≤ j < i + n)%nat → l !! j ≠ Some id) →
  delete_scan n i id l = Some (-1, l).
Proof.
  intros Hlen Hno.
  destruct (delete_scan_cases n i id l Hlen) as [[Hr _] | (j & Hj & Hjv & _)]; [done|].
  by destruct (Hno j Hj).
Qed.

Lemma delete_scan_first n i id l j :
  (i + n ≤ length l)%nat →
  (i ≤ j < i + n)%nat →
  l !! j = Some id →
  (∀ j', (i ≤ j' < j)%nat → l !! j' ≠ Some id) →
  delete_scan n i id l = Some (id, <[j := -1]> l).
Proof.
  intros Hlen Hj Hjv Hlow.
  destruct (delete_scan_cases n i id l Hlen)
    as [[_ Hall] | (j0 & Hj0 & Hj0v & Hlow0 & Hr)].
  - by destruct (Hall j Hj).
  - assert (j0 = j) as ->; [|done].
    destruct (Nat.lt_trichotomy j0 j) as [Hlt | [Heq | Hgt]]; [|done|].
    + destruct (Hlow j0); [lia | done].
    + destruct (Hlow0 j); [lia | done].
Qed.

(** A handle that occurs in the table has a lowest slot. *)
Lemma first_slot id l :
  id ∈ l →
  ∃ j, l !! j = Some id ∧ ∀ j', (j' < j)%nat → l !! j' ≠ Some id.
Proof.
  induction l as [|v l IH]; intros Hin; [by apply elem_of_nil in Hin|].
  destruct (decide (v = id)) as [->|Hne].
  - exists 0%nat. split; [done | intros; lia].
  - apply elem_of_cons in Hin as [->|Hin]; [done|].
    destruct (IH Hin) as (j & Hj & Hlow). exists (S j). split; [done|].
    intros [|j'] Hlt; simpl; [congruence | apply Hlow; lia].
Qed.

Lemma absent_lookup id l j : id ∉ l → l !! j ≠ Some id.
Proof. intros Hno Hj. apply Hno. eapply list_elem_of_lookup_2. exact Hj. Qed.

End Scan.

(** ** Deletion from the two registries *)

Section Delete.
Implicit Types (m : machine) (h : Z).

Lemma set_thread_list_id m : set_thread_list (thread_list m) m = m.
Proof. by destruct m. Qed.

Lemma set_sema_list_id m : set_sema_list (sema_list m) m = m.
Proof. by destruct m. Qed.

Lemma delete_thread_absent m h :
  wf_machine m → h ∉ thread_list m →
  LoaderSysDeleteExternalThreadList h m = Some (-1, m).
Proof.
  intros [Hlen _] Hno. unfold LoaderSysDeleteExternalThreadList.
  rewrite delete_scan_absent; [by rewrite set_thread_list_id | lia |].
  intros j _. by apply absent_lookup.
Qed.

Lemma delete_sema_absent m h :
  wf_machine m → h ∉ sema_list m →
  LoaderSysDeleteExternalSemaList h m = Some (-1, m).
Proof.
  intros [_ Hlen] Hno. unfold LoaderSysDeleteExternalSemaList.
  rewrite delete_scan_absent; [by rewrite set_sema_list_id | lia |].
  intros j _. by apply absent_lookup.
Qed.

Lemma delete_thread_lowest m h i :
  wf_machine m →
  thread_list m !! i = Some h →
  (∀ j, (j < i)%nat → thread_list m !! j ≠ Some h) →
  LoaderSysDeleteExternalThreadList h m
  = Some (h, set_thread_list (<[i := -1]> (thread_list m)) m).
Proof.
  intros [Hlen _] Hi Hlow. unfold LoaderSysDeleteExternalThreadList.
  apply lookup_lt_Some in Hi as Hlt.
  rewrite (delete_scan_first _ _ _ _ i); [done | lia | lia | done |].
  intros j Hj. apply Hlow. lia.
Qed.

Lemma delete_sema_lowest m h i :
  wf_machine m →
  sema_list m !! i = Some h →
  (∀ j, (j < i)%nat → sema_list m !! j ≠ Some h) →
  LoaderSysDeleteExternalSemaList h m
  = Some (h, set_sema_list (<[i := -1]> (sema_list m)) m).
Proof.
  intros [_ Hlen] Hi Hlow. unfold LoaderSysDeleteExternalSemaList.
  apply lookup_lt_Some in Hi as Hlt.
  rewrite (delete_scan_first _ _ _ _ i); [done | lia | lia | done |].
  intros j Hj. apply Hlow. lia.
Qed.

(** What one deletion does to a table, whatever the handle. *)
Lemma delete_thread_cases m h :
  wf_machine m →
  ((h ∉ thread_list m) ∧ LoaderSysDeleteExternalThreadList h m = Some (-1, m))
  ∨ (∃ i, thread_list m !! i = Some h ∧
          (∀ j, (j < i)%nat → thread_list m !! j ≠ Some h) ∧
          LoaderSysDeleteExternalThreadList h m
          = Some (h, set_thread_list (<[i := -1]> (thread_list m)) m)).
Proof.
  intros Hwf. destruct (decide (h ∈ thread_list m)) as [Hin|Hno].
  - right. destruct (first_slot _ _ Hin) as (i & Hi & Hlow).
    exists i. split; [done|]. split; [done|]. by apply delete_thread_lowest.
  - left. split; [done|]. by apply delete_thread_absent.
Qed.

Lemma delete_sema_cases m h :
  wf_machine m →
  ((h ∉ sema_list m) ∧ LoaderSysDeleteExternalSemaList h m = Some (-1, m))
  ∨ (∃ i, sema_list m !! i = Some h ∧
          (∀ j, (j < i)%nat → sema_list m !! j ≠ Some h) ∧
          LoaderSysDeleteExternalSemaList h m
          = Some (h, set_sema_list (<[i := -1]> (sema_list m)) m)).
Proof.
  intros Hwf. destruct (decide (h ∈ sema_list m)) as [Hin|Hno].
  - right. destruct (first_slot _ _ Hin) as (i & Hi & Hlow).
    exists i. split; [done|]. split; [done|]. by apply delete_sema_lowest.
  - left. split; [done|]. by apply delete_sema_absent.
Qed.

(** Clearing a slot keeps the invariant. *)
Lemma unique_handles_clear (l : list Z) i :
  unique_handles l → unique_handles (<[i := -1]> l).
Proof.
  intros Hu a b v Ha Hb Hv.
  destruct (decide (a = i)) as [->|Hai].
  { apply lookup_lt_Some in Ha as Hlt. rewrite length_insert in Hlt.
    rewrite list_lookup_insert_eq in Ha by done. congruence. }
  destruct (decide (b = i)) as [->|Hbi].
  { apply lookup_lt_Some in Hb as Hlt. rewrite length_insert in Hlt.
    rewrite list_lookup_insert_eq in Hb by done. congruence. }
  rewrite list_lookup_insert_ne in Ha by done.
  rewrite list_lookup_insert_ne in Hb by done.
  by apply (Hu a b v).
Qed.

(** Under the invariant, clearing the slot of [h] removes [h]. *)
Lemma unique_handles_gone (l : list Z) i h :
  unique_handles l → l !! i = Some h → h ≠ -1 → h ∉ <[i := -1]> l.
Proof.
  intros Hu Hi Hh Hin. apply list_elem_of_lookup in Hin as [k Hk].
  destruct (decide (k = i)) as [->|Hki].
  - apply lookup_lt_Some in Hi as Hlt.
    rewrite list_lookup_insert_eq in Hk by done. congruence.
  - rewrite list_lookup_insert_ne in Hk by done.
    apply Hki. by apply (Hu k i h).
Qed.
End Delete.

(** ** The registry claims *)

Lemma pattern_slot a b c d x :
  pattern_5_x_5 a b c d x !! (a + b + 1)%nat = Some x.
Proof.
  unfold pattern_5_x_5.
  replace (a + b + 1)%nat
    with (length (replicate a (-1)%Z ++ 5%Z :: replicate b (-1)%Z) + 0)%nat.
  - by rewrite lookup_app_r, Nat.add_comm, Nat.add_sub by lia.
  - rewrite length_app. simpl. rewrite !length_replicate. lia.
Qed.

Lemma pattern_before a b c d x j v :
  (j < a + b + 1)%nat → pattern_5_x_5 a b c d x !! j = Some v → v = -1 ∨ v = 5.
Proof.
  intros Hj. unfold pattern_5_x_5. rewrite lookup_app_l.
  - intros Hv. apply list_elem_of_lookup_2 in Hv.
    apply elem_of_app in Hv as [Hv | Hv].
    + apply elem_of_replicate in Hv. tauto.
    + apply elem_of_cons in Hv as [-> | Hv]; [tauto|].
      apply elem_of_replicate in Hv. tauto.
  - rewrite length_app. simpl. rewrite !length_replicate. lia.
Qed.

Lemma pattern_clear a b c d x y :
  <[(a + b + 1)%nat := y]> (pattern_5_x_5 a b c d x) = pattern_5_x_5 a b c d y.
Proof.
  unfold pattern_5_x_5.
  assert (length (replicate a (-1) ++ 5 :: replicate b (-1)) = (a + b + 1)%nat)
    as Hl.
  { rewrite length_app. simpl. rewrite !length_replicate. lia. }
  rewrite insert_app_r_alt by lia. rewrite Hl, Nat.sub_diag. done.
Qed.

(** C1.  On every 256-slot thread table that holds 5, 9, 5 in this order
    and [-1] in every other slot, [LoaderSysDeleteExternalThreadList(9)]
    returns 9 and the table after the call is the same table with [-1]
    in the slot that held 9: both slots holding 5 and every empty slot
    are as before, and so are the semaphore table and memory.  On every
    256-slot table that does not contain the non-negative handle [h], the
    call with [h] returns [-1], which is not [h]. *)
Theorem C1_delete_9_from_5_9_5 (m : machine) (a b c d : nat) (h : Z) :
  wf_machine m →
  (thread_list m = pattern_5_x_5 a b c d 9 →
   LoaderSysDeleteExternalThreadList 9 m
   = Some (9, set_thread_list (pattern_5_x_5 a b c d (-1)) m)
   ∧ pattern_5_x_5 a b c d (-1) = <[(a + b + 1)%nat := -1]> (thread_list m))
  ∧ (0 ≤ h → h ∉ thread_list m →
     LoaderSysDeleteExternalThreadList h m = Some (-1, m) ∧ -1 ≠ h).
Proof.
  intros Hwf. split.
  - intros Hpat. rewrite Hpat, pattern_clear. split; [|done].
    rewrite (delete_thread_lowest m 9 (a + b + 1)); [by rewrite Hpat, pattern_clear | done | |].
    + rewrite Hpat. apply pattern_slot.
    + intros j Hj Hv. rewrite Hpat in Hv.
      destruct (pattern_before _ _ _ _ _ _ _ Hj Hv); lia.
  - intros Hh Hno. split; [by apply delete_thread_absent | lia].
Qed.

Lemma C1_witness :
  LoaderSysDeleteExternalThreadList 9
    (machine_of (5 :: 9 :: 5 :: replicate 253 (-1)) (replicate 256 (-1)))
  = Some (9, machine_of (5 :: -1 :: 5 :: replicate 253 (-1)) (replicate 256 (-1)))
  ∧ LoaderSysDeleteExternalThreadList 7
      (machine_of (5 :: 9 :: 5 :: replicate 253 (-1)) (replicate 256 (-1)))
    = Some (-1, machine_of (5 :: 9 :: 5 :: replicate 253 (-1)) (replicate 256 (-1))).
Proof.
  pose proof (C1_delete_9_from_5_9_5
    (machine_of (5 :: 9 :: 5 :: replicate 253 (-1)) (replicate 256 (-1)))
    0 0 0 253 7) as H.
  destruct H as [H9 H7]; [split; reflexivity|].
  split.
  - destruct H9 as [H9 _]; [reflexivity|]. exact H9.
  - destruct H7 as [H7 _]; [lia | |exact H7].
    by_evaluation.
Defined.

(** C3.  For both registries: deleting a handle that is in no slot returns
    [-1] and leaves the machine, hence every slot, as it was; and once a
    delete has left the handle absent, deleting it again returns [-1] and
    changes nothing. *)
Theorem C3_delete_absent_unchanged (m : machine) (h : Z) :
  wf_machine m →
  (h ∉ thread_list m → LoaderSysDeleteExternalThreadList h m = Some (-1, m))
  ∧ (h ∉ sema_list m → LoaderSysDeleteExternalSemaList h m = Some (-1, m))
  ∧ (∀ r m1, LoaderSysDeleteExternalThreadList h m = Some (r, m1) →
             h ∉ thread_list m1 →
             LoaderSysDeleteExternalThreadList h m1 = Some (-1, m1))
  ∧ (∀ r m1, LoaderSysDeleteExternalSemaList h m = Some (r, m1) →
             h ∉ sema_list m1 →
             LoaderSysDeleteExternalSemaList h m1 = Some (-1, m1)).
Proof.
  intros Hwf. split; [by apply delete_thread_absent|].
  split; [by apply delete_sema_absent|].
  split; intros r m1 Hcall Hno.
  - apply delete_thread_absent; [|done].
    destruct (delete_thread_cases m h Hwf) as [[_ Hr] | (i & _ & _ & Hr)];
      rewrite Hr in Hcall; simplify_eq; [done|].
    destruct Hwf as [Ht Hs]. split; simpl; [by rewrite length_insert | done].
  - apply delete_sema_absent; [|done].
    destruct (delete_sema_cases m h Hwf) as [[_ Hr] | (i & _ & _ & Hr)];
      rewrite Hr in Hcall; simplify_eq; [done|].
    destruct Hwf as [Ht Hs]. split; simpl; [done | by rewrite length_insert].
Qed.

Lemma C3_witness :
  LoaderSysDeleteExternalThreadList 7
    (machine_of (5 :: 9 :: 5 :: replicate 253 (-1)) (replicate 256 (-1)))
  = Some (-1, machine_of (5 :: 9 :: 5 :: replicate 253 (-1)) (replicate 256 (-1)))
  ∧ LoaderSysDeleteExternalSemaList 7
      (machine_of (5 :: 9 :: 5 :: replicate 253 (-1)) (replicate 256 (-1)))
    = Some (-1, machine_of (5 :: 9 :: 5 :: replicate 253 (-1)) (replicate 256 (-1)))
  ∧ LoaderSysDeleteExternalThreadList 9
      (machine_of (5 :: -1 :: 5 :: replicate 253 (-1)) (replicate 256 (-1)))
    = Some (-1, machine_of (5 :: -1 :: 5 :: replicate 253 (-1)) (replicate 256 (-1))).
Proof.
  destruct (C3_delete_absent_unchanged
    (machine_of (5 :: 9 :: 5 :: replicate 253 (-1)) (replicate 256 (-1))) 7)
    as (Ht & Hs & _); [split; reflexivity|].
  destruct (C3_delete_absent_unchanged
    (machine_of (5 :: 9 :: 5 :: replicate 253 (-1)) (replicate 256 (-1))) 9)
    as (_ & _ & Hagain & _); [split; reflexivity|].
  split; [|split].
  - apply Ht. by_evaluation.
  - apply Hs. by_evaluation.
  - apply (Hagain 9).
    + reflexivity.
    + by_evaluation.
Defined.

(** C4.  For both registries: deleting a handle that is present returns
    the handle, puts [-1] in one slot that held it, and leaves every other
    slot, at its own index, exactly as it was; the table keeps its length,
    and the other table and memory are untouched. *)
Theorem C4_delete_present_frame (m : machine) (h : Z) :
  wf_machine m →
  (h ∈ thread_list m →
   ∃ i m1,
     LoaderSysDeleteExternalThreadList h m = Some (h, m1)
     ∧ thread_list m !! i = Some h
     ∧ thread_list m1 !! i = Some (-1)
     ∧ (∀ k, k ≠ i → thread_list m1 !! k = thread_list m !! k)
     ∧ length (thread_list m1) = length (thread_list m)
     ∧ sema_list m1 = sema_list m ∧ ram m1 = ram m)
  ∧ (h ∈ sema_list m →
     ∃ i m1,
       LoaderSysDeleteExternalSemaList h m = Some (h, m1)
       ∧ sema_list m !! i = Some h
       ∧ sema_list m1 !! i = Some (-1)
       ∧ (∀ k, k ≠ i → sema_list m1 !! k = sema_list m !! k)
       ∧ length (sema_list m1) = length (sema_list m)
       ∧ thread_list m1 = thread_list m ∧ ram m1 = ram m).
Proof.
  intros Hwf. split; intros Hin.
  - destruct (delete_thread_cases m h Hwf) as [[Hno _] | (i & Hi & _ & Hr)]; [done|].
    exists i, (set_thread_list (<[i := -1]> (thread_list m)) m). simpl.
    apply lookup_lt_Some in Hi as Hlt.
    split; [done|]. split; [done|].
    split; [by apply list_lookup_insert_eq|].
    split; [intros k Hk; by apply list_lookup_insert_ne|].
    split; [apply length_insert | done].
  - destruct (delete_sema_cases m h Hwf) as [[Hno _] | (i & Hi & _ & Hr)]; [done|].
    exists i, (set_sema_list (<[i := -1]> (sema_list m)) m). simpl.
    apply lookup_lt_Some in Hi as Hlt.
    split; [done|]. split; [done|].
    split; [by apply list_lookup_insert_eq|].
    split; [intros k Hk; by apply list_lookup_insert_ne|].
    split; [apply length_insert | done].
Qed.

Lemma C4_witness :
  ∃ i m1,
    LoaderSysDeleteExternalThreadList 5
      (machine_of (5 :: 9 :: 5 :: replicate 253 (-1)) (replicate 256 (-1)))
    = Some (5, m1)
    ∧ thread_list m1 !! i = Some (-1)
    ∧ ∀ k, k ≠ i →
        thread_list m1 !! k = (5 :: 9 :: 5 :: replicate 253 (-1)) !! k.
Proof.
  destruct (C4_delete_present_frame
    (machine_of (5 :: 9 :: 5 :: replicate 253 (-1)) (replicate 256 (-1))) 5)
    as [Ht _]; [split; reflexivity|].
  destruct Ht as (i & m1 & Hr & _ & Hi & Hk & _).
  - by_evaluation.
  - exists i, m1. split; [exact Hr|]. split; [exact Hi | exact Hk].
Defined.

(** C5.  For both registries: if every handle is in at most one slot
    before a delete, the delete returns and every handle is in at most one
    slot after it; and when the handle deleted is non-negative and was
    present, it is returned and is in no slot afterwards. *)
Theorem C5_delete_keeps_unique (m : machine) (h : Z) :
  wf_machine m →
  (unique_handles (thread_list m) →
   ∃ r m1,
     LoaderSysDeleteExternalThreadList h m = Some (r, m1)
     ∧ unique_handles (thread_list m1)
     ∧ (0 ≤ h → h ∈ thread_list m → r = h ∧ h ∉ thread_list m1))
  ∧ (unique_handles (sema_list m) →
     ∃ r m1,
       LoaderSysDeleteExternalSemaList h m = Some (r, m1)
       ∧ unique_handles (sema_list m1)
       ∧ (0 ≤ h → h ∈ sema_list m → r = h ∧ h ∉ sema_list m1)).
Proof.
  intros Hwf. split; intros Hu.
  - destruct (delete_thread_cases m h Hwf) as [[Hno Hr] | (i & Hi & _ & Hr)].
    + exists (-1), m. split; [done|]. split; [done|]. by intros _ Hin.
    + exists h, (set_thread_list (<[i := -1]> (thread_list m)) m). simpl.
      split; [done|]. split; [by apply unique_handles_clear|].
      intros Hh _. split; [done|]. apply unique_handles_gone; [done | done | lia].
  - destruct (delete_sema_cases m h Hwf) as [[Hno Hr] | (i & Hi & _ & Hr)].
    + exists (-1), m. split; [done|]. split; [done|]. by intros _ Hin.
    + exists h, (set_sema_list (<[i := -1]> (sema_list m)) m). simpl.
      split; [done|]. split; [by apply unique_handles_clear|].
      intros Hh _. split; [done|]. apply unique_handles_gone; [done | done | lia].
Qed.

(** A criterion that can be evaluated: the non-empty slots hold no
    duplicate. *)
Lemma unique_handles_NoDup (l : list Z) :
  NoDup (filter (λ v, v ≠ -1) l) → unique_handles l.
Proof.
  induction l as [|x l IH]; intros Hnd i j v Hi Hj Hv.
  - by rewrite lookup_nil in Hi.
  - assert (∀ k, l !! k = Some v → x ≠ v) as Hfresh.
    { intros k Hk ->. rewrite filter_cons_True in Hnd by done.
      apply NoDup_cons in Hnd as [Hnot _]. apply Hnot.
      apply list_elem_of_filter. split; [done|]. by eapply list_elem_of_lookup_2. }
    assert (NoDup (filter (λ v, v ≠ -1) l)) as Hnd'.
    { destruct (decide (x ≠ -1)).
      - rewrite filter_cons_True in Hnd by done. by apply NoDup_cons in Hnd as [_ ?].
      - by rewrite filter_cons_False in Hnd. }
    destruct i as [|i], j as [|j]; simpl in Hi, Hj.
    + done.
    + simplify_eq. by destruct (Hfresh j Hj).
    + simplify_eq. by destruct (Hfresh i Hi).
    + f_equal. by apply (IH Hnd' i j v).
Qed.

Lemma C5_witness :
  ∃ m1,
    LoaderSysDeleteExternalThreadList 9
      (machine_of (5 :: 9 :: replicate 254 (-1)) (replicate 256 (-1)))
    = Some (9, m1)
    ∧ unique_handles (thread_list m1) ∧ 9 ∉ thread_list m1.
Proof.
  destruct (C5_delete_keeps_unique
    (machine_of (5 :: 9 :: replicate 254 (-1)) (replicate 256 (-1))) 9)
    as [Ht _]; [split; reflexivity|].
  destruct Ht as (r & m1 & Hr & Hu & Hgone).
  { apply unique_handles_NoDup. by_evaluation. }
  destruct Hgone as [-> Hno]; [lia | |].
  - by_evaluation.
  - exists m1. split; [exact Hr|]. split; [exact Hu | exact Hno].
Defined.

(** C6.  Both tables have exactly 256 slots, before and after a delete.
    The scan is by value from index 0 upward: when [i] is the lowest slot
    that holds [h], the delete returns [h], the table afterwards is the old
    one with [-1] at index [i], and every other slot that held [h] still
    holds it. *)
Theorem C6_delete_clears_lowest_slot (m : machine) (h : Z) (i : nat) :
  wf_machine m →
  THREAD_LIST_LEN = 256%nat ∧ SEMA_LIST_LEN = 256%nat
  ∧ length (thread_list m) = 256%nat ∧ length (sema_list m) = 256%nat
  ∧ (thread_list m !! i = Some h →
     (∀ j, (j < i)%nat → thread_list m !! j ≠ Some h) →
     ∃ m1,
       LoaderSysDeleteExternalThreadList h m = Some (h, m1)
       ∧ thread_list m1 = <[i := -1]> (thread_list m)
       ∧ wf_machine m1
       ∧ ∀ k, k ≠ i → thread_list m !! k = Some h → thread_list m1 !! k = Some h)
  ∧ (sema_list m !! i = Some h →
     (∀ j, (j < i)%nat → sema_list m !! j ≠ Some h) →
     ∃ m1,
       LoaderSysDeleteExternalSemaList h m = Some (h, m1)
       ∧ sema_list m1 = <[i := -1]> (sema_list m)
       ∧ wf_machine m1
       ∧ ∀ k, k ≠ i → sema_list m !! k = Some h → sema_list m1 !! k = Some h).
Proof.
  intros Hwf. pose proof Hwf as [Ht Hs].
  split; [done|]. split; [done|]. split; [done|]. split; [done|].
  split; intros Hi Hlow.
  - exists (set_thread_list (<[i := -1]> (thread_list m)) m). simpl.
    split; [by apply delete_thread_lowest|]. split; [done|].
    split; [split; simpl; [by rewrite length_insert | done]|].
    intros k Hk Hkv. by rewrite list_lookup_insert_ne.
  - exists (set_sema_list (<[i := -1]> (sema_list m)) m). simpl.
    split; [by apply delete_sema_lowest|]. split; [done|].
    split; [split; simpl; [done | by rewrite length_insert]|].
    intros k Hk Hkv. by rewrite list_lookup_insert_ne.
Qed.

Lemma C6_witness :
  ∃ m1,
    LoaderSysDeleteExternalThreadList 5
      (machine_of (5 :: 9 :: 5 :: replicate 253 (-1)) (replicate 256 (-1)))
    = Some (5, m1)
    ∧ thread_list m1 = <[0%nat := -1]> (5 :: 9 :: 5 :: replicate 253 (-1))
    ∧ thread_list m1 !! 2%nat = Some 5.
Proof.
  destruct (C6_delete_clears_lowest_slot
    (machine_of (5 :: 9 :: 5 :: replicate 253 (-1)) (replicate 256 (-1))) 5 0)
    as (_ & _ & _ & _ & Ht & _); [split; reflexivity|].
  destruct Ht as (m1 & Hr & Hl & _ & Hk); [reflexivity | intros j Hj; lia |].
  exists m1. split; [exact Hr|]. split; [exact Hl|].
  apply Hk; [lia | reflexivity].
Defined.

(** C8.  For both registries, on every machine, the delete called with the
    sentinel [-1] itself returns [-1], the value returned for a handle that
    is not found, and leaves the machine unchanged, whether some slot holds
    [-1] or none does. *)
Theorem C8_delete_sentinel (m : machine) :
  wf_machine m →
  LoaderSysDeleteExternalThreadList (-1) m = Some (-1, m)
  ∧ LoaderSysDeleteExternalSemaList (-1) m = Some (-1, m).
Proof.
  intros Hwf. split.
  - destruct (delete_thread_cases m (-1) Hwf) as [[_ Hr] | (i & Hi & _ & Hr)]; [done|].
    by rewrite Hr, list_insert_id, set_thread_list_id.
  - destruct (delete_sema_cases m (-1) Hwf) as [[_ Hr] | (i & Hi & _ & Hr)]; [done|].
    by rewrite Hr, list_insert_id, set_sema_list_id.
Qed.

Lemma C8_witness :
  LoaderSysDeleteExternalThreadList (-1)
    (machine_of (5 :: 9 :: 5 :: replicate 253 (-1)) (replicate 256 7))
  = Some (-1, machine_of (5 :: 9 :: 5 :: replicate 253 (-1)) (replicate 256 7))
  ∧ LoaderSysDeleteExternalSemaList (-1)
      (machine_of (5 :: 9 :: 5 :: replicate 253 (-1)) (replicate 256 7))
    = Some (-1, machine_of (5 :: 9 :: 5 :: replicate 253 (-1)) (replicate 256 7)).
Proof.
  apply (C8_delete_sentinel
    (machine_of (5 :: 9 :: 5 :: replicate 253 (-1)) (replicate 256 7))).
  split; reflexivity.
Defined.

(** ** The bulk priority change *)

Section Priority.
Context {K : Type} (kstep : syscall → K → Z * K).
Implicit Types (m : machine) (k : K) (t : list event).

(** The loop never faults on a table with enough slots, returns the
    machine it was given, and makes one call per visited slot, in slot
    order. *)
Lemma run_change_priority_loop n i thread_id priority m k :
  (i + n ≤ length (thread_list m))%nat →
  ∃ k1 t,
    run kstep (change_priority_loop n i thread_id priority m) k = (Some m, k1, t)
    ∧ calls t = (λ v, ChangeThreadPriority v priority)
                <$> filter (visited thread_id) (take n (drop i (thread_list m))).
Proof.
  revert i k. induction n as [|n IH]; intros i k Hlen.
  - exists k, []. by rewrite take_0.
  - destruct (lookup_lt_is_Some_2 (thread_list m) i) as [v Hv]; [lia|].
    rewrite (drop_S _ _ _ Hv). rewrite firstn_cons. simpl. rewrite Hv.
    destruct (bool_decide (v ≠ thread_id) && bool_decide (-1 < v)) eqn:Htest.
    + apply andb_prop in Htest as [H1%bool_decide_eq_true H2%bool_decide_eq_true].
      rewrite filter_cons_True by done.
      unfold mbind, proc_bind, sys. simpl.
      destruct (kstep (ChangeThreadPriority v priority) k) as [r k0].
      destruct (IH (S i) k0) as (k1 & t & Hrun & Hcalls); [lia|].
      rewrite Hrun. exists k1, ((ChangeThreadPriority v priority, r) :: t).
      split; [done|]. unfold calls in *. rewrite !fmap_cons. simpl. by rewrite Hcalls.
    + rewrite filter_cons_False.
      * apply IH. lia.
      * intros [H1 H2]. apply andb_false_iff in Htest
          as [H%bool_decide_eq_false | H%bool_decide_eq_false]; done.
Qed.

(** The whole function: the first call is [GetThreadId], made when the
    function is entered, and the id it returns is the one every slot is
    compared with. *)
Lemma run_call {A} c (f : Z → proc A) k :
  run kstep (Call c f) k
  = (let '(r, k1) := kstep c k in
     let '(a, k2, t) := run kstep (f r) k1 in (a, k2, (c, r) :: t)).
Proof. reflexivity. Qed.

Lemma bind_sys {A} c (f : Z → proc A) : sys c ≫= f = Call c f.
Proof. reflexivity. Qed.

Lemma run_change_priority priority m k :
  wf_machine m →
  ∃ k1 t,
    run kstep (LoaderSysChangeExternalThreadPriorityExceptMe priority m) k
    = (Some m, k1, (GetThreadId, (kstep GetThreadId k).1) :: t)
    ∧ calls t = (λ v, ChangeThreadPriority v priority)
                <$> filter (visited (kstep GetThreadId k).1) (thread_list m).
Proof.
  intros [Hlen _]. unfold LoaderSysChangeExternalThreadPriorityExceptMe.
  rewrite bind_sys, run_call.
  destruct (kstep GetThreadId k) as [tid k0]. cbn [fst].
  destruct (run_change_priority_loop THREAD_LIST_LEN 0 tid priority m k0)
    as (k1 & t & Hrun & Hcalls).
  { rewrite Hlen. apply Nat.le_refl. }
  rewrite Hrun. exists k1, t. split; [reflexivity|].
  rewrite Hcalls, drop_0, take_ge; [reflexivity|].
  rewrite Hlen. apply Nat.le_refl.
Qed.
End Priority.

(** One call per slot: the number of calls for a handle. *)
Lemma calls_per_handle (tid priority h : Z) (l : list Z) :
  length (filter (λ c, c = ChangeThreadPriority h priority)
            ((λ v, ChangeThreadPriority v priority) <$> filter (visited tid) l))
  = if decide (visited tid h) then occurrences h l else 0%nat.
Proof.
  unfold occurrences. induction l as [|v l IH].
  - by destruct (decide (visited tid h)).
  - destruct (decide (visited tid v)) as [Hv|Hv].
    + rewrite (filter_cons_True (visited tid)) by done. rewrite fmap_cons.
      destruct (decide (v = h)) as [->|Hne].
      * rewrite !filter_cons_True by done. simpl. rewrite IH.
        by destruct (decide (visited tid h)).
      * rewrite !filter_cons_False by congruence. done.
    + rewrite (filter_cons_False (visited tid)) by done. rewrite IH.
      destruct (decide (visited tid h)) as [Hh|Hh]; [|done].
      rewrite filter_cons_False; [done | by intros ->].
Qed.

(** No call of the loop names a slot value that fails the test. *)
Lemma calls_visited (tid priority h p : Z) (l : list Z) :
  ChangeThreadPriority h p
    ∈ (λ v, ChangeThreadPriority v priority) <$> filter (visited tid) l →
  p = priority ∧ visited tid h ∧ h ∈ l.
Proof.
  intros Hin. apply list_elem_of_fmap in Hin as (v & Heq & Hv).
  apply list_elem_of_filter in Hv as [Hvis Hv]. by simplify_eq.
Qed.

(** C2, as the code has it.  On every kernel and every 256-slot thread
    table, [LoaderSysChangeExternalThreadPriorityExceptMe(priority)]
    first calls [GetThreadId], at the time it is entered, and takes the
    value returned there as the caller's id; it then calls
    [ChangeThreadPriority(handle, priority)] once for every slot whose
    value is non-negative and differs from that id, in slot order, and
    makes no other call, so that a non-negative handle other than the
    caller's is named by as many calls as slots hold it, and the caller's
    own id is named by none.  The machine is returned as it was. *)
Theorem C2_priority_change_except_me
  {K : Type} (kstep : syscall → K → Z * K) (k : K) (m : machine) (priority : Z) :
  wf_machine m →
  ∃ k1 t,
    run kstep (LoaderSysChangeExternalThreadPriorityExceptMe priority m) k
    = (Some m, k1, (GetThreadId, (kstep GetThreadId k).1) :: t)
    ∧ calls t = (λ v, ChangeThreadPriority v priority)
                <$> filter (λ v, v ≠ (kstep GetThreadId k).1 ∧ -1 < v) (thread_list m)
    ∧ (∀ h, 0 ≤ h → h ≠ (kstep GetThreadId k).1 →
            length (filter (λ c, c = ChangeThreadPriority h priority) (calls t))
            = occurrences h (thread_list m))
    ∧ (∀ p, ChangeThreadPriority (kstep GetThreadId k).1 p ∉ calls t).
Proof.
  intros Hwf.
  destruct (run_change_priority kstep priority m k Hwf) as (k1 & t & Hrun & Hcalls).
  exists k1, t. split; [done|]. split; [done|]. split.
  - intros h Hh Hne. rewrite Hcalls, calls_per_handle.
    destruct (decide (visited (kstep GetThreadId k).1 h)) as [|Hn]; [done|].
    destruct Hn. split; [done | lia].
  - intros p Hin. rewrite Hcalls in Hin.
    apply calls_visited in Hin as (_ & [Hne _] & _). done.
Qed.

Lemma C2_witness :
  ∃ k1 t,
    run kernel_of_thread
      (LoaderSysChangeExternalThreadPriorityExceptMe 10
         (machine_of (5 :: 9 :: 5 :: replicate 253 (-1)) (replicate 256 (-1)))) 9
    = (Some (machine_of (5 :: 9 :: 5 :: replicate 253 (-1)) (replicate 256 (-1))),
       k1, (GetThreadId, 9) :: t)
    ∧ length (filter (λ c, c = ChangeThreadPriority 5 10) (calls t)) = 2%nat
    ∧ ChangeThreadPriority 9 10 ∉ calls t.
Proof.
  destruct (C2_priority_change_except_me kernel_of_thread 9
    (machine_of (5 :: 9 :: 5 :: replicate 253 (-1)) (replicate 256 (-1))) 10)
    as (k1 & t & Hrun & _ & Hcount & Hme); [split; reflexivity|].
  exists k1, t. split; [exact Hrun|]. split.
  - rewrite (Hcount 5); [reflexivity | lia | simpl; lia].
  - apply (Hme 10).
Defined.

(** C2 as stated fails: with [-2] in slot 0 of an otherwise empty table
    and thread 0 running, the slot holds a value that is neither the
    sentinel [-1] nor the caller's id, and no call names it. *)
Lemma C2_counterexample :
  ¬ (∀ (m : machine) (running priority h : Z),
       wf_machine m → h ≠ -1 → h ≠ running →
       length (filter (λ c, c = ChangeThreadPriority h priority)
                 (calls (run kernel_of_thread
                           (LoaderSysChangeExternalThreadPriorityExceptMe priority m)
                           running).2))
       = occurrences h (thread_list m)).
Proof.
  intros Hclaim.
  specialize (Hclaim
    (machine_of (-2 :: replicate 255 (-1)) (replicate 256 (-1))) 0 10 (-2)).
  assert (0%nat = 1%nat) as Habs; [|discriminate Habs].
  etransitivity; [|etransitivity; [apply Hclaim|]].
  - vm_compute. reflexivity.
  - split; reflexivity.
  - lia.
  - lia.
  - vm_compute. reflexivity.
Qed.

(** C9.  On every kernel and every 256-slot thread table,
    [LoaderSysChangeExternalThreadPriorityExceptMe] returns the machine it
    was given, so that no slot of the registry is modified, and every
    [ChangeThreadPriority] call it makes names a non-negative value found
    in the table: a slot that holds a negative value, [-1] or any other,
    is named by no call. *)
Theorem C9_priority_change_skips_negative
  {K : Type} (kstep : syscall → K → Z * K) (k : K) (m : machine) (priority : Z) :
  wf_machine m →
  ∃ k1 t,
    run kstep (LoaderSysChangeExternalThreadPriorityExceptMe priority m) k
    = (Some m, k1, t)
    ∧ (∀ h p, ChangeThreadPriority h p ∈ calls t → 0 ≤ h ∧ h ∈ thread_list m)
    ∧ (∀ i v p, thread_list m !! i = Some v → v < 0 →
                ChangeThreadPriority v p ∉ calls t).
Proof.
  intros Hwf.
  destruct (run_change_priority kstep priority m k Hwf) as (k1 & t & Hrun & Hcalls).
  exists k1, ((GetThreadId, (kstep GetThreadId k).1) :: t).
  split; [done|].
  assert (∀ h p, ChangeThreadPriority h p
                   ∈ calls ((GetThreadId, (kstep GetThreadId k).1) :: t) →
                 0 ≤ h ∧ h ∈ thread_list m) as Hpos.
  { intros h p Hin. unfold calls in Hin. rewrite fmap_cons in Hin.
    apply elem_of_cons in Hin as [Heq | Hin]; [discriminate Heq|].
    change (t.*1) with (calls t) in Hin. rewrite Hcalls in Hin.
    apply calls_visited in Hin as (_ & [_ Hlt] & Hin). split; [lia | done]. }
  split; [done|].
  intros i v p _ Hneg Hin. apply Hpos in Hin as [Hge _]. lia.
Qed.

Lemma C9_witness :
  ∃ k1 t,
    run kernel_of_thread
      (LoaderSysChangeExternalThreadPriorityExceptMe 10
         (machine_of (5 :: -2 :: -7 :: replicate 253 (-1)) (replicate 256 (-1)))) 9
    = (Some (machine_of (5 :: -2 :: -7 :: replicate 253 (-1)) (replicate 256 (-1))),
       k1, t)
    ∧ (ChangeThreadPriority (-2) 10 ∉ calls t)
    ∧ (ChangeThreadPriority (-7) 10 ∉ calls t).
Proof.
  destruct (C9_priority_change_skips_negative kernel_of_thread 9
    (machine_of (5 :: -2 :: -7 :: replicate 253 (-1)) (replicate 256 (-1))) 10)
    as (k1 & t & Hrun & _ & Hneg); [split; reflexivity|].
  exists k1, t. split; [exact Hrun|]. split.
  - apply (Hneg 1%nat); [reflexivity | lia].
  - apply (Hneg 2%nat); [reflexivity | lia].
Defined.

(** ** The hook descriptor *)

Lemma code_inj (c1 c2 : ascii) : code c1 = code c2 → c1 = c2.
Proof.
  unfold code. intros H%Nat2Z.inj.
  by rewrite <- (ascii_nat_embedding c1), <- (ascii_nat_embedding c2), H.
Qed.

(** Against a string with no NUL among the characters compared,
    [strncmp] is 0 exactly when all of them agree. *)
Lemma strncmp_from_zero (s1 s2 : nat → ascii) (k n : nat) :
  (∀ j, (k ≤ j < k + n)%nat → s2 j ≠ zero) →
  strncmp_from s1 s2 k n = 0 ↔ ∀ j, (k ≤ j < k + n)%nat → s1 j = s2 j.
Proof.
  revert k. induction n as [|n IH]; intros k Hnz; simpl.
  - split; [intros _ j Hj; lia | done].
  - case_bool_decide as Hne.
    + split.
      * intros Hz. destruct Hne. apply code_inj. lia.
      * intros Hall. destruct Hne. apply Hall. lia.
    + case_bool_decide as Hnul.
      * destruct (Hnz k); [lia | congruence].
      * rewrite IH by (intros j Hj; apply Hnz; lia). split.
        -- intros Hall j Hj. destruct (decide (j = k)) as [->|]; [done | apply Hall; lia].
        -- intros Hall j Hj. apply Hall. lia.
Qed.

Lemma host0_no_nul (j : nat) : (0 ≤ j < 0 + 6)%nat → chars_of "host0:" j ≠ zero.
Proof.
  intros Hj. do 6 (destruct j as [|j]; [done|]). lia.
Qed.

Lemma strncmp_host0 (m : machine) (p : Z) :
  strncmp (chars_at m p) (chars_of "host0:") 6 = 0 ↔ starts_with_host0 m p.
Proof.
  unfold strncmp, starts_with_host0.
  rewrite (strncmp_from_zero _ _ 0 6 host0_no_nul).
  split; intros H j Hj; apply H; lia.
Qed.

Lemma to_s32_add (a b : Z) : to_s32 (to_s32 a + b) = to_s32 (a + b).
Proof.
  unfold to_s32. f_equal.
  replace ((a + 2 ^ 31) mod 2 ^ 32 - 2 ^ 31 + b + 2 ^ 31)
    with ((a + 2 ^ 31) mod 2 ^ 32 + b) by lia.
  rewrite Zplus_mod_idemp_l. f_equal. lia.
Qed.

(** C10, as the code has it.  For every memory and every pointer
    [hook_desc]: [strncmp(hook_desc, "host0:", 6)] is 0 exactly when the
    first six characters at [hook_desc] are those of ["host0:"]; in that
    case [checkHookDesc] returns the address 6 bytes past [hook_desc], as
    the 32-bit integer the function returns, and otherwise it returns 0;
    a result other than 0 is returned only on a match; and wherever the
    address 6 bytes past [hook_desc] is not itself 0 as a 32-bit value,
    that address is returned if and only if the prefix matches.  The
    machine is left as it was. *)
Theorem C10_checkHookDesc (m : machine) (hook_desc : Z) :
  (strncmp (chars_at m hook_desc) (chars_of "host0:") 6 = 0
   ↔ starts_with_host0 m hook_desc)
  ∧ (starts_with_host0 m hook_desc →
     checkHookDesc hook_desc m = (to_s32 (hook_desc + 6), m))
  ∧ (¬ starts_with_host0 m hook_desc → checkHookDesc hook_desc m = (0, m))
  ∧ ((checkHookDesc hook_desc m).1 ≠ 0 → starts_with_host0 m hook_desc)
  ∧ (to_s32 (hook_desc + 6) ≠ 0 →
     ((checkHookDesc hook_desc m).1 = to_s32 (hook_desc + 6)
      ↔ starts_with_host0 m hook_desc))
  ∧ (checkHookDesc hook_desc m).2 = m.
Proof.
  pose proof (strncmp_host0 m hook_desc) as Hcmp.
  unfold checkHookDesc. rewrite to_s32_add.
  split; [done|]. case_bool_decide as Hz.
  - apply Hcmp in Hz. repeat split; done.
  - assert (¬ starts_with_host0 m hook_desc) as Hno by (by rewrite <- Hcmp).
    split; [done|]. split; [done|]. split; [done|]. split; [|done].
    intros Hnz. simpl. split; [intros Heq; by destruct Hnz | done].
Qed.

Lemma C10_witness :
  checkHookDesc 1048576
    {| thread_list := replicate 256 (-1); sema_list := replicate 256 (-1);
       ram := ram_of_string 1048576 "host0:boot.elf" |}
  = (1048582,
     {| thread_list := replicate 256 (-1); sema_list := replicate 256 (-1);
        ram := ram_of_string 1048576 "host0:boot.elf" |})
  ∧ checkHookDesc 1048576 (machine_of (replicate 256 (-1)) (replicate 256 (-1)))
    = (0, machine_of (replicate 256 (-1)) (replicate 256 (-1))).
Proof.
  split.
  - apply (C10_checkHookDesc
      {| thread_list := replicate 256 (-1); sema_list := replicate 256 (-1);
         ram := ram_of_string 1048576 "host0:boot.elf" |} 1048576).
    intros k Hk. do 6 (destruct k as [|k]; [reflexivity|]). lia.
  - apply (C10_checkHookDesc
      (machine_of (replicate 256 (-1)) (replicate 256 (-1))) 1048576).
    intros H. specialize (H 0%nat). discriminate H. lia.
Defined.

(** C10 as stated fails: for the pointer [0xFFFFFFFA] the address 6 bytes
    on is 0 in 32 bits, the value returned when there is no match, so on
    a memory that holds no ["host0:"] there the function returns that
    address although the prefix does not match. *)
Lemma C10_counterexample :
  ¬ (∀ (m : machine) (hook_desc : Z),
       (checkHookDesc hook_desc m).1 = to_s32 (hook_desc + 6)
       ↔ starts_with_host0 m hook_desc).
Proof.
  intros Hclaim.
  destruct (Hclaim (machine_of [] []) 4294967290) as [Hmatch _].
  assert (chars_at (machine_of [] []) 4294967290 0 = chars_of "host0:" 0) as Habs.
  { apply Hmatch; [reflexivity | lia]. }
  discriminate Habs.
Qed.

(** ** The recovery controller *)

Section RecoveryOrder.
Import Recovery.
Implicit Types (t : list action) (l : list Z).

Lemma release_all_step act keep l n :
  (∀ v, step_of (act v) = n) →
  Forall (λ a, step_of a = n) (release_all act keep l).1.
Proof.
  intros Hact. induction l as [|v l IH]; simpl; [constructor|].
  destruct (release_all act keep l) as [a r]. simpl in IH.
  case_bool_decide; [done|]. destruct (keep v); [done|].
  simpl. by constructor.
Qed.

Lemma release_all_covers act keep l v :
  v ∈ l → v ≠ -1 → keep v = false → act v ∈ (release_all act keep l).1.
Proof.
  intros Hin Hv Hkeep. induction l as [|w l IH]; [by apply elem_of_nil in Hin|].
  simpl. destruct (release_all act keep l) as [a r]. simpl in IH.
  apply elem_of_cons in Hin as [<- | Hin].
  - rewrite bool_decide_eq_false_2 by done. rewrite Hkeep. simpl. by left.
  - specialize (IH Hin). case_bool_decide; [done|].
    destruct (keep w); [done|]. simpl. by right.
Qed.

Lemma release_all_keeps act keep l v :
  (∀ x y, act x = act y → x = y) → keep v = true →
  act v ∉ (release_all act keep l).1.
Proof.
  intros Hinj Hkeep. induction l as [|w l IH]; simpl; [by intros H%elem_of_nil|].
  destruct (release_all act keep l) as [a r]. simpl in IH.
  case_bool_decide; [done|]. destruct (keep w) eqn:Hw; [done|].
  simpl. intros [Heq | Hin]%elem_of_cons; [|done].
  apply Hinj in Heq. congruence.
Qed.

Lemma in_order_uniform t n : Forall (λ a, step_of a = n) t → in_order t.
Proof.
  intros Hall i j x y Hi Hj Hlt.
  rewrite Forall_forall in Hall.
  pose proof (Hall x (list_elem_of_lookup_2 _ _ _ Hi)).
  pose proof (Hall y (list_elem_of_lookup_2 _ _ _ Hj)). lia.
Qed.

Lemma in_order_app t1 t2 :
  in_order t1 → in_order t2 →
  (∀ x y, x ∈ t1 → y ∈ t2 → (step_of x ≤ step_of y)%nat) →
  in_order (t1 ++ t2).
Proof.
  intros H1 H2 H12 i j x y Hi Hj Hlt.
  apply lookup_app_Some in Hi as [Hi | [Hil Hi]];
    apply lookup_app_Some in Hj as [Hj | [Hjl Hj]].
  - by apply (H1 i j x y).
  - apply lookup_lt_Some in Hi. lia.
  - pose proof (H12 y x (list_elem_of_lookup_2 _ _ _ Hj)
                  (list_elem_of_lookup_2 _ _ _ Hi)). lia.
  - pose proof (H2 _ _ x y Hi Hj Hlt). lia.
Qed.

(** A phase in front of a log of later steps. *)
Lemma in_order_phase t1 t2 n k :
  (n ≤ k)%nat →
  Forall (λ a, step_of a = n) t1 →
  in_order t2 → Forall (λ a, (k ≤ step_of a)%nat) t2 →
  in_order (t1 ++ t2) ∧ Forall (λ a, (n ≤ step_of a)%nat) (t1 ++ t2).
Proof.
  intros Hnk F1 H2 F2. split.
  - apply in_order_app; [by eapply in_order_uniform | done |].
    intros x y Hx Hy. rewrite Forall_forall in F1, F2.
    apply F1 in Hx. apply F2 in Hy. lia.
  - apply Forall_app. split.
    + eapply Forall_impl; [exact F1|]. simpl. intros a Ha. lia.
    + eapply Forall_impl; [exact F2|]. simpl. intros a Ha. lia.
Qed.

(** Four uniform phases, then possibly the restore, are in order. *)
Lemma in_order_phases t1 t2 t3 t4 t5 :
  Forall (λ a, step_of a = 1%nat) t1 → Forall (λ a, step_of a = 2%nat) t2 →
  Forall (λ a, step_of a = 3%nat) t3 → Forall (λ a, step_of a = 4%nat) t4 →
  Forall (λ a, step_of a = 5%nat) t5 →
  in_order (t1 ++ t2 ++ t3 ++ t4 ++ t5).
Proof.
  intros F1 F2 F3 F4 F5.
  assert (in_order t5 ∧ Forall (λ a, (5 ≤ step_of a)%nat) t5) as [H5 G5].
  { split; [by eapply in_order_uniform|].
    eapply Forall_impl; [exact F5|]. simpl. intros a Ha. lia. }
  destruct (in_order_phase t4 t5 4 5) as [H4 G4]; [lia | done..|].
  destruct (in_order_phase t3 _ 3 4 ltac:(lia) F3 H4 G4) as [H3 G3].
  destruct (in_order_phase t2 _ 2 3 ltac:(lia) F2 H3 G3) as [H2 G2].
  by destruct (in_order_phase t1 _ 1 2 ltac:(lia) F1 H2 G2) as [H1 _].
Qed.
End RecoveryOrder.

(** C7.  Spec-modelled.  Every run of [recoverAndJump] appends to the
    log a sequence of actions in the order of the five steps: every
    deletion of an interrupt handler comes before every termination of a
    thread, these before every deletion of a semaphore, these before every
    release of a memory block, and the restore of the context after all of
    them.  Every registered handler, every registered thread but the
    caller, every registered semaphore and every reserved block is
    released, and the caller's thread is not terminated.  When a recovery
    point is live, the last action is the restore of that context and
    execution resumes there: control does not come back to the caller. *)
Theorem C7_recover_and_jump_order (s : Recovery.state) :
  ∃ t,
    Recovery.log (Recovery.final_state (Recovery.recoverAndJump s))
    = Recovery.log s ++ t
    ∧ Recovery.in_order t
    ∧ (∀ h, h ∈ Recovery.handlers s → h ≠ -1 → Recovery.DeleteIntcHandler h ∈ t)
    ∧ (∀ h, h ∈ Recovery.threads s → h ≠ -1 → h ≠ Recovery.running s →
            Recovery.TerminateThread h ∈ t)
    ∧ (Recovery.TerminateThread (Recovery.running s) ∉ t)
    ∧ (∀ h, h ∈ Recovery.semas s → h ≠ -1 → Recovery.DeleteSema h ∈ t)
    ∧ (∀ h, h ∈ Recovery.blocks s → h ≠ -1 → Recovery.ReleaseMemory h ∈ t)
    ∧ (∀ c, Recovery.point s = Some c →
            last t = Some (Recovery.RestoreContext c)
            ∧ (∃ s', Recovery.recoverAndJump s = Recovery.Resumed c s')
            ∧ ∀ s', Recovery.recoverAndJump s ≠ Recovery.Returned s').
Proof.
  pose proof (release_all_step Recovery.DeleteIntcHandler (λ _, false)
                (Recovery.handlers s) 1 (λ _, eq_refl)) as F1.
  pose proof (release_all_step Recovery.TerminateThread
                (λ v, bool_decide (v = Recovery.running s))
                (Recovery.threads s) 2 (λ _, eq_refl)) as F2.
  pose proof (release_all_step Recovery.DeleteSema (λ _, false)
                (Recovery.semas s) 3 (λ _, eq_refl)) as F3.
  pose proof (release_all_step Recovery.ReleaseMemory (λ _, false)
                (Recovery.blocks s) 4 (λ _, eq_refl)) as F4.
  pose proof (λ h, release_all_covers Recovery.DeleteIntcHandler (λ _, false)
                (Recovery.handlers s) h) as Cov1.
  pose proof (λ h, release_all_covers Recovery.TerminateThread
                (λ v, bool_decide (v = Recovery.running s))
                (Recovery.threads s) h) as Cov2.
  pose proof (λ h, release_all_covers Recovery.DeleteSema (λ _, false)
                (Recovery.semas s) h) as Cov3.
  pose proof (λ h, release_all_covers Recovery.ReleaseMemory (λ _, false)
                (Recovery.blocks s) h) as Cov4.
  pose proof (release_all_keeps Recovery.TerminateThread
                (λ v, bool_decide (v = Recovery.running s))
                (Recovery.threads s) (Recovery.running s)) as Kme.
  unfold Recovery.recoverAndJump, Recovery.restore_context, Recovery.release_memory,
    Recovery.delete_semaphores, Recovery.terminate_threads, Recovery.delete_handlers.
  cbn [Recovery.handlers Recovery.threads Recovery.semas Recovery.blocks
       Recovery.point Recovery.running Recovery.log].
  destruct (Recovery.release_all Recovery.DeleteIntcHandler _ _) as [a1 h1].
  destruct (Recovery.release_all Recovery.TerminateThread _ _) as [a2 t1].
  destruct (Recovery.release_all Recovery.DeleteSema _ _) as [a3 s1].
  destruct (Recovery.release_all Recovery.ReleaseMemory _ _) as [a4 b1].
  cbn [fst snd] in *.
  assert (Recovery.TerminateThread (Recovery.running s) ∉ a2) as Hme.
  { apply Kme; [by intros x y [= ->] | by apply bool_decide_eq_true_2]. }
  assert (∀ t5, Forall (λ a, Recovery.step_of a = 5%nat) t5 →
          Recovery.TerminateThread (Recovery.running s) ∉ t5 →
          Recovery.in_order (a1 ++ a2 ++ a3 ++ a4 ++ t5)
          ∧ (∀ h, h ∈ Recovery.handlers s → h ≠ -1 →
                  Recovery.DeleteIntcHandler h ∈ a1 ++ a2 ++ a3 ++ a4 ++ t5)
          ∧ (∀ h, h ∈ Recovery.threads s → h ≠ -1 → h ≠ Recovery.running s →
                  Recovery.TerminateThread h ∈ a1 ++ a2 ++ a3 ++ a4 ++ t5)
          ∧ (Recovery.TerminateThread (Recovery.running s)
               ∉ a1 ++ a2 ++ a3 ++ a4 ++ t5)
          ∧ (∀ h, h ∈ Recovery.semas s → h ≠ -1 →
                  Recovery.DeleteSema h ∈ a1 ++ a2 ++ a3 ++ a4 ++ t5)
          ∧ (∀ h, h ∈ Recovery.blocks s → h ≠ -1 →
                  Recovery.ReleaseMemory h ∈ a1 ++ a2 ++ a3 ++ a4 ++ t5)) as Hlog.
  { intros t5 F5 Hme5. split; [by apply in_order_phases|].
    split; [intros h Hh Hs; rewrite !elem_of_app; left; by apply Cov1|].
    split.
    { intros h Hh Hs Hr. rewrite !elem_of_app. right. left.
      apply Cov2; [done | done | by apply bool_decide_eq_false_2]. }
    split.
    { rewrite !elem_of_app. intros [H | [H | [H | [H | H]]]]; try done.
      - rewrite Forall_forall in F1. by apply F1 in H.
      - rewrite Forall_forall in F3. by apply F3 in H.
      - rewrite Forall_forall in F4. by apply F4 in H. }
    split; intros h Hh Hs; rewrite !elem_of_app.
    - right. right. left. by apply Cov3.
    - right. right. right. left. by apply Cov4. }
  destruct (Recovery.point s) as [c|] eqn:Hpoint; cbn [Recovery.final_state Recovery.log].
  - exists (a1 ++ a2 ++ a3 ++ a4 ++ [Recovery.RestoreContext c]).
    destruct (Hlog [Recovery.RestoreContext c]) as (H1 & H2 & H3 & H4 & H5 & H6).
    { by repeat constructor. }
    { by intros [H | H%elem_of_nil]%elem_of_cons. }
    split; [by rewrite <- !app_assoc|].
    repeat (split; [done|]). intros c' [= <-].
    split; [by rewrite !app_assoc, last_snoc|]. split; [by eexists | done].
  - exists (a1 ++ a2 ++ a3 ++ a4).
    destruct (Hlog []) as (H1 & H2 & H3 & H4 & H5 & H6); [done | by intros H%elem_of_nil |].
    rewrite !app_nil_r in *.
    split; [by rewrite <- !app_assoc|].
    repeat (split; [done|]). done.
Qed.

Lemma C7_witness :
  ∃ s',
    Recovery.recoverAndJump
      {| Recovery.handlers := [3; -1]; Recovery.threads := [5; 9; -1; 7];
         Recovery.semas := [-1; 4]; Recovery.blocks := [];
         Recovery.point := Some {| Recovery.pc := 1048576; Recovery.sp := 33554432 |};
         Recovery.running := 9; Recovery.log := [] |}
    = Recovery.Resumed {| Recovery.pc := 1048576; Recovery.sp := 33554432 |} s'
    ∧ Recovery.log s'
      = [Recovery.DeleteIntcHandler 3; Recovery.TerminateThread 5;
         Recovery.TerminateThread 7; Recovery.DeleteSema 4;
         Recovery.RestoreContext {| Recovery.pc := 1048576; Recovery.sp := 33554432 |}].
Proof.
  destruct (C7_recover_and_jump_order
    {| Recovery.handlers := [3; -1]; Recovery.threads := [5; 9; -1; 7];
       Recovery.semas := [-1; 4]; Recovery.blocks := [];
       Recovery.point := Some {| Recovery.pc := 1048576; Recovery.sp := 33554432 |};
       Recovery.running := 9; Recovery.log := [] |})
    as (t & _ & _ & _ & _ & _ & _ & _ & Hpoint).
  destruct (Hpoint {| Recovery.pc := 1048576; Recovery.sp := 33554432 |})
    as (_ & [s' Hres] & _); [reflexivity|].
  exists s'. split; [exact Hres|].
  injection Hres as <-. reflexivity.
Defined.


(** * Further properties of the C functions *)

(** ** The scan against its functional description *)

Section ClearFirst.
Implicit Types (l : list Z) (h v : Z).

Lemma clear_first_length h l : length (clear_first h l) = length l.
Proof.
  induction l as [|v l IH]; [done|]. simpl.
  destruct (decide (v = h)); simpl; by rewrite ?IH.
Qed.

Lemma clear_first_absent h l : h ∉ l → clear_first h l = l.
Proof.
  induction l as [|v l IH]; [done|]. intros [Hv Hl]%not_elem_of_cons. simpl.
  destruct (decide (v = h)) as [->|]; [done|]. by rewrite IH.
Qed.

Lemma clear_first_lowest h l j :
  l !! j = Some h → (∀ j', (j' < j)%nat → l !! j' ≠ Some h) →
  clear_first h l = <[j := -1]> l.
Proof.
  revert j. induction l as [|v l IH]; intros j Hj Hlow; [done|]. simpl.
  destruct (decide (v = h)) as [->|Hne].
  - destruct j as [|j]; [done|]. destruct (Hlow 0%nat); [lia | done].
  - destruct j as [|j]; [simpl in Hj; congruence|]. simpl. f_equal.
    apply IH; [done|]. intros j' Hj'. apply (Hlow (S j')). lia.
Qed.

Lemma clear_first_sentinel l : clear_first (-1) l = l.
Proof.
  induction l as [|v l IH]; [done|]. simpl.
  destruct (decide (v = -1)) as [->|]; [done|]. by rewrite IH.
Qed.

Lemma clear_first_elem h v l :
  v ≠ h → v ≠ -1 → v ∈ clear_first h l ↔ v ∈ l.
Proof.
  intros Hh Hs. induction l as [|w l IH]; [done|]. simpl.
  destruct (decide (w = h)) as [->|].
  - rewrite !elem_of_cons. split; intros [?|?]; try (by right); congruence.
  - rewrite !elem_of_cons, IH. done.
Qed.

Lemma clear_first_commute h1 h2 l :
  clear_first h1 (clear_first h2 l) = clear_first h2 (clear_first h1 l).
Proof.
  destruct (decide (h1 = h2)) as [->|Hne]; [done|].
  destruct (decide (h1 = -1)) as [->|H1]; [by rewrite !clear_first_sentinel|].
  destruct (decide (h2 = -1)) as [->|H2]; [by rewrite !clear_first_sentinel|].
  induction l as [|v l IH]; [done|]. simpl.
  destruct (decide (v = h2)) as [Hv2|Hv2]; destruct (decide (v = h1)) as [Hv1|Hv1];
    simpl; repeat case_decide; try congruence; try lia.
Qed.

Lemma found_clear_first h1 h2 l :
  h1 ≠ h2 → found h1 (clear_first h2 l) = found h1 l.
Proof.
  intros Hne. unfold found.
  destruct (decide (h1 = -1)) as [->|H1].
  - by destruct (decide (-1 ∈ clear_first h2 l)), (decide (-1 ∈ l)).
  - destruct (decide (h1 ∈ clear_first h2 l)) as [Hin|Hno], (decide (h1 ∈ l));
      try done.
    + by apply clear_first_elem in Hin.
    + destruct Hno. by apply clear_first_elem.
Qed.

(** The loop over a whole table is the functional description. *)
Lemma delete_scan_clear_first h l :
  delete_scan (length l) 0 h l = Some (found h l, clear_first h l).
Proof.
  unfold found.
  destruct (delete_scan_cases (length l) 0 h l) as [[Hr Hall] | (j & Hj & Hjv & Hlow & Hr)];
    [lia | |].
  - assert (h ∉ l) as Hno.
    { intros [j Hj]%list_elem_of_lookup. apply (Hall j); [|done].
      apply lookup_lt_Some in Hj. lia. }
    by rewrite Hr, decide_False, clear_first_absent.
  - rewrite Hr, decide_True by (by eapply list_elem_of_lookup_2).
    rewrite (clear_first_lowest h l j); [done | done |].
    intros j' Hj'. apply Hlow. lia.
Qed.

Lemma occurrences_nil v : occurrences v [] = 0%nat.
Proof. done. Qed.

Lemma occurrences_cons v w l :
  occurrences v (w :: l)
  = ((if decide (w = v) then 1 else 0) + occurrences v l)%nat.
Proof.
  unfold occurrences. destruct (decide (w = v)).
  - by rewrite filter_cons_True.
  - by rewrite filter_cons_False.
Qed.

Lemma occurrences_absent v l : occurrences v l = 0%nat ↔ v ∉ l.
Proof.
  induction l as [|w l IH].
  { split; [intros _ H; by apply elem_of_nil in H | done]. }
  rewrite occurrences_cons, not_elem_of_cons.
  destruct (decide (w = v)) as [->|Hw].
  - split; [lia | by intros [? _]].
  - rewrite <- IH. split; [intros H; split; [congruence | lia] | intros [_ H]; lia].
Qed.

Lemma occurrences_le_length v l : (occurrences v l ≤ length l)%nat.
Proof. unfold occurrences. apply length_filter. Qed.

(** Slot accounting of one deletion. *)
Lemma occurrences_clear_first_other h v l :
  v ≠ h → v ≠ -1 → occurrences v (clear_first h l) = occurrences v l.
Proof.
  intros Hh Hs. induction l as [|w l IH]; [done|]. simpl.
  destruct (decide (w = h)) as [->|Hw].
  - rewrite !occurrences_cons. repeat case_decide; congruence || lia.
  - by rewrite !occurrences_cons, IH.
Qed.

Lemma occurrences_clear_first_hit h l :
  h ≠ -1 → h ∈ l →
  S (occurrences h (clear_first h l)) = occurrences h l
  ∧ occurrences (-1) (clear_first h l) = S (occurrences (-1) l).
Proof.
  intros Hs. induction l as [|w l IH]; intros Hin; [by apply elem_of_nil in Hin|].
  simpl. destruct (decide (w = h)) as [->|Hw].
  - rewrite !occurrences_cons. repeat case_decide; congruence || lia.
  - apply elem_of_cons in Hin as [->|Hin]; [done|].
    destruct (IH Hin) as [IH1 IH2]. rewrite !occurrences_cons.
    repeat case_decide; congruence || lia.
Qed.
End ClearFirst.

(** ** A registry and its delete function, in general

    Both registries are a field of the machine with a delete function
    that is the scan over that field; what follows from this is proved
    once. *)

Section Registry.
Context (get : machine → list Z) (set : list Z → machine → machine)
  (del : Z → machine → option (Z * machine)).
Hypothesis del_scan : ∀ h m,
  wf_machine m →
  del h m = Some (found h (get m), set (clear_first h (get m)) m).
Hypothesis get_set : ∀ l m, get (set l m) = l.
Hypothesis set_set : ∀ l l' m, set l (set l' m) = set l m.
Hypothesis wf_set : ∀ l m,
  wf_machine m → length l = length (get m) → wf_machine (set l m).

Lemma registry_wf_after h m :
  wf_machine m → wf_machine (set (clear_first h (get m)) m).
Proof. intros Hwf. apply wf_set; [done | apply clear_first_length]. Qed.

Lemma registry_commute h1 h2 m :
  wf_machine m → h1 ≠ h2 →
  ('(r1, m1) ← del h1 m; '(r2, m2) ← del h2 m1; Some (r1, r2, m2))
  = ('(r2, m1) ← del h2 m; '(r1, m2) ← del h1 m1; Some (r1, r2, m2)).
Proof.
  intros Hwf Hne. rewrite !del_scan by done. simpl.
  rewrite !del_scan by (by apply registry_wf_after). simpl.
  rewrite !get_set, !set_set.
  rewrite (found_clear_first h1 h2), (found_clear_first h2 h1) by done.
  by rewrite clear_first_commute.
Qed.

Lemma registry_drain h n m :
  wf_machine m → h ≠ -1 → occurrences h (get m) = n →
  ∃ m1,
    delete_times del n h m = Some (replicate n h, m1)
    ∧ wf_machine m1
    ∧ (h ∉ get m1)
    ∧ ∀ v, v ≠ h → v ≠ -1 → occurrences v (get m1) = occurrences v (get m).
Proof.
  revert m. induction n as [|n IH]; intros m Hwf Hs Hocc.
  - exists m. split; [done|]. split; [done|].
    split; [by apply occurrences_absent | done].
  - assert (h ∈ get m) as Hin.
    { destruct (decide (h ∈ get m)) as [|Hno]; [done|].
      apply occurrences_absent in Hno. lia. }
    destruct (occurrences_clear_first_hit h (get m) Hs Hin) as [Hhit _].
    destruct (IH (set (clear_first h (get m)) m)) as (m1 & Hrun & Hwf1 & Hno & Hoth).
    { by apply registry_wf_after. }
    { done. }
    { rewrite get_set. lia. }
    exists m1. split.
    { simpl. rewrite del_scan by done. simpl. rewrite Hrun. simpl.
      unfold found. by rewrite decide_True. }
    split; [done|]. split; [done|].
    intros v Hv Hvs. rewrite Hoth, get_set by done.
    by apply occurrences_clear_first_other.
Qed.
End Registry.

(** The two registries are instances. *)
Lemma delete_thread_scan h m :
  wf_machine m →
  LoaderSysDeleteExternalThreadList h m
  = Some (found h (thread_list m),
          set_thread_list (clear_first h (thread_list m)) m).
Proof.
  intros [Ht _]. unfold LoaderSysDeleteExternalThreadList.
  by rewrite <- Ht, delete_scan_clear_first.
Qed.

Lemma delete_sema_scan h m :
  wf_machine m →
  LoaderSysDeleteExternalSemaList h m
  = Some (found h (sema_list m), set_sema_list (clear_first h (sema_list m)) m).
Proof.
  intros [_ Hs]. unfold LoaderSysDeleteExternalSemaList.
  by rewrite <- Hs, delete_scan_clear_first.
Qed.

Lemma wf_set_thread_list l m :
  wf_machine m → length l = length (thread_list m) →
  wf_machine (set_thread_list l m).
Proof. intros [Ht Hs] Hl. split; simpl; [by rewrite Hl | done]. Qed.

Lemma wf_set_sema_list l m :
  wf_machine m → length l = length (sema_list m) →
  wf_machine (set_sema_list l m).
Proof. intros [Ht Hs] Hl. split; simpl; [done | by rewrite Hl]. Qed.

Lemma found_present h l : h ≠ -1 → (found h l = h ↔ h ∈ l) ∧ (found h l = -1 ↔ h ∉ l).
Proof.
  intros Hs. unfold found.
  destruct (decide (h ∈ l)); split; split; done || congruence.
Qed.

(** ** More on the two delete functions *)

(** X1.  On a 256-slot table a delete never faults and, for a handle other
    than [-1], its result tells whether the handle was registered: it is
    the handle exactly when some slot held it and [-1] exactly when none
    did.  The table afterwards is the old one with the first slot that
    held the handle cleared, and still has 256 slots. *)
Theorem X1_delete_result_tells_presence (m : machine) (h : Z) :
  wf_machine m → h ≠ -1 →
  (∃ r m1,
     LoaderSysDeleteExternalThreadList h m = Some (r, m1)
     ∧ (r = h ↔ h ∈ thread_list m) ∧ (r = -1 ↔ h ∉ thread_list m)
     ∧ thread_list m1 = clear_first h (thread_list m)
     ∧ wf_machine m1)
  ∧ (∃ r m1,
       LoaderSysDeleteExternalSemaList h m = Some (r, m1)
       ∧ (r = h ↔ h ∈ sema_list m) ∧ (r = -1 ↔ h ∉ sema_list m)
       ∧ sema_list m1 = clear_first h (sema_list m)
       ∧ wf_machine m1).
Proof.
  intros Hwf Hs. split.
  - destruct (found_present h (thread_list m) Hs) as [Hyes Hno].
    eexists _, _. split; [by apply delete_thread_scan|].
    split; [done|]. split; [done|]. split; [done|].
    apply wf_set_thread_list; [done | apply clear_first_length].
  - destruct (found_present h (sema_list m) Hs) as [Hyes Hno].
    eexists _, _. split; [by apply delete_sema_scan|].
    split; [done|]. split; [done|]. split; [done|].
    apply wf_set_sema_list; [done | apply clear_first_length].
Qed.

Lemma X1_witness :
  ∃ r m1,
    LoaderSysDeleteExternalThreadList (-2)
      (machine_of (5 :: -2 :: 5 :: replicate 253 (-1)) (replicate 256 (-1)))
    = Some (r, m1)
    ∧ (r = -2 ↔ -2 ∈ 5 :: -2 :: 5 :: replicate 253 (-1))
    ∧ wf_machine m1.
Proof.
  destruct (X1_delete_result_tells_presence
    (machine_of (5 :: -2 :: 5 :: replicate 253 (-1)) (replicate 256 (-1))) (-2))
    as [(r & m1 & Hr & Hyes & _ & _ & Hwf) _]; [split; reflexivity | lia |].
  exists r, m1. split; [exact Hr|]. split; [exact Hyes | exact Hwf].
Defined.

(** X2.  Slot accounting: deleting a registered handle other than [-1]
    leaves one slot fewer holding it and one more empty slot, and the
    number of slots holding any other handle is unchanged. *)
Theorem X2_delete_slot_accounting (m : machine) (h : Z) :
  wf_machine m → h ≠ -1 →
  (h ∈ thread_list m →
   ∃ m1,
     LoaderSysDeleteExternalThreadList h m = Some (h, m1)
     ∧ S (occurrences h (thread_list m1)) = occurrences h (thread_list m)
     ∧ occurrences (-1) (thread_list m1) = S (occurrences (-1) (thread_list m))
     ∧ ∀ v, v ≠ h → v ≠ -1 →
         occurrences v (thread_list m1) = occurrences v (thread_list m))
  ∧ (h ∈ sema_list m →
     ∃ m1,
       LoaderSysDeleteExternalSemaList h m = Some (h, m1)
       ∧ S (occurrences h (sema_list m1)) = occurrences h (sema_list m)
       ∧ occurrences (-1) (sema_list m1) = S (occurrences (-1) (sema_list m))
       ∧ ∀ v, v ≠ h → v ≠ -1 →
           occurrences v (sema_list m1) = occurrences v (sema_list m)).
Proof.
  intros Hwf Hs. split; intros Hin.
  - destruct (occurrences_clear_first_hit h _ Hs Hin) as [Hh He].
    eexists. split.
    { rewrite delete_thread_scan by done. unfold found. by rewrite decide_True. }
    simpl. split; [done|]. split; [done|].
    intros v Hv Hvs. by apply occurrences_clear_first_other.
  - destruct (occurrences_clear_first_hit h _ Hs Hin) as [Hh He].
    eexists. split.
    { rewrite delete_sema_scan by done. unfold found. by rewrite decide_True. }
    simpl. split; [done|]. split; [done|].
    intros v Hv Hvs. by apply occurrences_clear_first_other.
Qed.

Lemma X2_witness :
  ∃ m1,
    LoaderSysDeleteExternalThreadList 5
      (machine_of (5 :: 9 :: 5 :: replicate 253 (-1)) (replicate 256 (-1)))
    = Some (5, m1)
    ∧ occurrences 5 (thread_list m1) = 1%nat
    ∧ occurrences (-1) (thread_list m1) = 254%nat
    ∧ occurrences 9 (thread_list m1) = 1%nat.
Proof.
  destruct (X2_delete_slot_accounting
    (machine_of (5 :: 9 :: 5 :: replicate 253 (-1)) (replicate 256 (-1))) 5)
    as [Ht _]; [split; reflexivity | lia |].
  destruct Ht as (m1 & Hr & H5 & He & Hoth); [by_evaluation|].
  exists m1. split; [exact Hr|]. split; [|split].
  - apply eq_add_S. rewrite H5. vm_compute. reflexivity.
  - rewrite He. vm_compute. reflexivity.
  - rewrite (Hoth 9); [vm_compute; reflexivity | lia | lia].
Defined.

(** X3.  Two deletes of different handles from the same registry can be
    made in either order: the values returned for each handle and the
    machine afterwards are the same. *)
Theorem X3_deletes_commute (m : machine) (h1 h2 : Z) :
  wf_machine m → h1 ≠ h2 →
  ('(r1, m1) ← LoaderSysDeleteExternalThreadList h1 m;
   '(r2, m2) ← LoaderSysDeleteExternalThreadList h2 m1; Some (r1, r2, m2))
  = ('(r2, m1) ← LoaderSysDeleteExternalThreadList h2 m;
     '(r1, m2) ← LoaderSysDeleteExternalThreadList h1 m1; Some (r1, r2, m2))
  ∧ ('(r1, m1) ← LoaderSysDeleteExternalSemaList h1 m;
     '(r2, m2) ← LoaderSysDeleteExternalSemaList h2 m1; Some (r1, r2, m2))
    = ('(r2, m1) ← LoaderSysDeleteExternalSemaList h2 m;
       '(r1, m2) ← LoaderSysDeleteExternalSemaList h1 m1; Some (r1, r2, m2)).
Proof.
  intros Hwf Hne. split.
  - apply (registry_commute thread_list set_thread_list); try done.
    + intros. by apply delete_thread_scan.
    + intros. by apply wf_set_thread_list.
  - apply (registry_commute sema_list set_sema_list); try done.
    + intros. by apply delete_sema_scan.
    + intros. by apply wf_set_sema_list.
Qed.

Lemma X3_witness :
  ('(r1, m1) ← LoaderSysDeleteExternalThreadList 5
                 (machine_of (5 :: 9 :: 5 :: replicate 253 (-1)) (replicate 256 (-1)));
   '(r2, m2) ← LoaderSysDeleteExternalThreadList 9 m1; Some (r1, r2, m2))
  = ('(r2, m1) ← LoaderSysDeleteExternalThreadList 9
                   (machine_of (5 :: 9 :: 5 :: replicate 253 (-1)) (replicate 256 (-1)));
     '(r1, m2) ← LoaderSysDeleteExternalThreadList 5 m1; Some (r1, r2, m2)).
Proof.
  apply (X3_deletes_commute
    (machine_of (5 :: 9 :: 5 :: replicate 253 (-1)) (replicate 256 (-1))) 5 9).
  - split; reflexivity.
  - lia.
Defined.

(** X4.  The two registries are independent: a thread delete and a
    semaphore delete give the same results and the same machine in either
    order, each clearing a slot of its own table only, and memory is not
    written. *)
Theorem X4_thread_and_sema_deletes_commute (m : machine) (h g : Z) :
  wf_machine m →
  ('(r1, m1) ← LoaderSysDeleteExternalThreadList h m;
   '(r2, m2) ← LoaderSysDeleteExternalSemaList g m1; Some (r1, r2, m2))
  = Some (found h (thread_list m), found g (sema_list m),
          {| thread_list := clear_first h (thread_list m);
             sema_list := clear_first g (sema_list m);
             ram := ram m |})
  ∧ ('(r2, m1) ← LoaderSysDeleteExternalSemaList g m;
     '(r1, m2) ← LoaderSysDeleteExternalThreadList h m1; Some (r1, r2, m2))
    = Some (found h (thread_list m), found g (sema_list m),
            {| thread_list := clear_first h (thread_list m);
               sema_list := clear_first g (sema_list m);
               ram := ram m |}).
Proof.
  intros Hwf. split.
  - rewrite delete_thread_scan by done. simpl.
    rewrite delete_sema_scan; [done|].
    apply wf_set_thread_list; [done | apply clear_first_length].
  - rewrite delete_sema_scan by done. simpl.
    rewrite delete_thread_scan; [done|].
    apply wf_set_sema_list; [done | apply clear_first_length].
Qed.

Lemma X4_witness :
  ('(r1, m1) ← LoaderSysDeleteExternalThreadList 9
                 (machine_of (5 :: 9 :: 5 :: replicate 253 (-1))
                    (4 :: replicate 255 (-1)));
   '(r2, m2) ← LoaderSysDeleteExternalSemaList 4 m1; Some (r1, r2, m2))
  = ('(r2, m1) ← LoaderSysDeleteExternalSemaList 4
                   (machine_of (5 :: 9 :: 5 :: replicate 253 (-1))
                      (4 :: replicate 255 (-1)));
     '(r1, m2) ← LoaderSysDeleteExternalThreadList 9 m1; Some (r1, r2, m2)).
Proof.
  destruct (X4_thread_and_sema_deletes_commute
    (machine_of (5 :: 9 :: 5 :: replicate 253 (-1)) (4 :: replicate 255 (-1))) 9 4)
    as [Hts Hst]; [split; reflexivity|].
  rewrite Hts, Hst. reflexivity.
Defined.

(** X5.  Draining duplicates: when a handle other than [-1] is in [k]
    slots, [k] deletes in a row each return the handle, and after them no
    slot holds it, so that one more delete returns [-1]; the number of
    slots holding any other handle is unchanged and the table still has
    256 slots. *)
Theorem X5_delete_drains_duplicates (m : machine) (h : Z) :
  wf_machine m → h ≠ -1 →
  (∃ m1,
     delete_times LoaderSysDeleteExternalThreadList
       (occurrences h (thread_list m)) h m
     = Some (replicate (occurrences h (thread_list m)) h, m1)
     ∧ (h ∉ thread_list m1)
     ∧ LoaderSysDeleteExternalThreadList h m1 = Some (-1, m1)
     ∧ wf_machine m1
     ∧ ∀ v, v ≠ h → v ≠ -1 →
         occurrences v (thread_list m1) = occurrences v (thread_list m))
  ∧ (∃ m1,
       delete_times LoaderSysDeleteExternalSemaList
         (occurrences h (sema_list m)) h m
       = Some (replicate (occurrences h (sema_list m)) h, m1)
       ∧ (h ∉ sema_list m1)
       ∧ LoaderSysDeleteExternalSemaList h m1 = Some (-1, m1)
       ∧ wf_machine m1
       ∧ ∀ v, v ≠ h → v ≠ -1 →
           occurrences v (sema_list m1) = occurrences v (sema_list m)).
Proof.
  intros Hwf Hs. split.
  - destruct (registry_drain thread_list set_thread_list
                LoaderSysDeleteExternalThreadList) with
      (h := h) (n := occurrences h (thread_list m)) (m := m)
      as (m1 & Hrun & Hwf1 & Hno & Hoth); try done.
    { intros. by apply delete_thread_scan. }
    { intros. by apply wf_set_thread_list. }
    exists m1. split; [done|]. split; [done|].
    split; [by apply delete_thread_absent | done].
  - destruct (registry_drain sema_list set_sema_list
                LoaderSysDeleteExternalSemaList) with
      (h := h) (n := occurrences h (sema_list m)) (m := m)
      as (m1 & Hrun & Hwf1 & Hno & Hoth); try done.
    { intros. by apply delete_sema_scan. }
    { intros. by apply wf_set_sema_list. }
    exists m1. split; [done|]. split; [done|].
    split; [by apply delete_sema_absent | done].
Qed.

Lemma X5_witness :
  ∃ m1,
    delete_times LoaderSysDeleteExternalThreadList 2 5
      (machine_of (5 :: 9 :: 5 :: replicate 253 (-1)) (replicate 256 (-1)))
    = Some ([5; 5], m1)
    ∧ (5 ∉ thread_list m1)
    ∧ LoaderSysDeleteExternalThreadList 5 m1 = Some (-1, m1).
Proof.
  destruct (X5_delete_drains_duplicates
    (machine_of (5 :: 9 :: 5 :: replicate 253 (-1)) (replicate 256 (-1))) 5)
    as [(m1 & Hrun & Hno & Hlast & _) _]; [split; reflexivity | lia |].
  exists m1. split; [exact Hrun|]. split; [exact Hno | exact Hlast].
Defined.

(** ** More on the bulk priority change *)

Lemma priority_calls_eq {K : Type} (kstep : syscall → K → Z * K) (k : K)
  (priority : Z) (m : machine) :
  wf_machine m →
  priority_calls kstep k priority m
  = GetThreadId
    :: ((λ v, ChangeThreadPriority v priority)
        <$> filter (visited (kstep GetThreadId k).1) (thread_list m)).
Proof.
  intros Hwf. unfold priority_calls.
  destruct (run_change_priority kstep priority m k Hwf) as (k1 & t & Hrun & Hcalls).
  rewrite Hrun. cbn [snd]. unfold calls in *. rewrite fmap_cons. cbn [fst].
  by rewrite Hcalls.
Qed.

Lemma calls_for_priority_calls {K : Type} (kstep : syscall → K → Z * K) (k : K)
  (priority h : Z) (m : machine) :
  wf_machine m →
  calls_for h priority (priority_calls kstep k priority m)
  = if decide (visited (kstep GetThreadId k).1 h)
    then occurrences h (thread_list m) else 0%nat.
Proof.
  intros Hwf. rewrite priority_calls_eq by done. unfold calls_for.
  rewrite filter_cons_False by done. apply calls_per_handle.
Qed.

(** X6.  The calls of the bulk priority change depend on the kernel only
    through the id that [GetThreadId] returns: whatever
    [ChangeThreadPriority] answers, failure included, the same calls
    follow.  There are at most 256 of them after the [GetThreadId], and
    each carries the priority the function was called with. *)
Theorem X6_priority_calls_ignore_kernel_answers
  {K1 K2 : Type} (kstep1 : syscall → K1 → Z * K1) (kstep2 : syscall → K2 → Z * K2)
  (k1 : K1) (k2 : K2) (m : machine) (priority : Z) :
  wf_machine m →
  ((kstep1 GetThreadId k1).1 = (kstep2 GetThreadId k2).1 →
   priority_calls kstep1 k1 priority m = priority_calls kstep2 k2 priority m)
  ∧ (length (priority_calls kstep1 k1 priority m) ≤ S THREAD_LIST_LEN)%nat
  ∧ (∀ h p, ChangeThreadPriority h p ∈ priority_calls kstep1 k1 priority m →
            p = priority).
Proof.
  intros Hwf. rewrite !priority_calls_eq by done. split; [|split].
  - by intros ->.
  - destruct Hwf as [Ht _]. rewrite length_cons, length_fmap, <- Ht.
    apply le_n_S, length_filter.
  - intros h p [Heq | Hin]%elem_of_cons; [discriminate Heq|].
    by apply calls_visited in Hin as [-> _].
Qed.

(** A kernel in which every [ChangeThreadPriority] fails with [-1]. *)
Lemma X6_witness :
  priority_calls kernel_of_thread 9 10
    (machine_of (5 :: 9 :: 5 :: replicate 253 (-1)) (replicate 256 (-1)))
  = priority_calls
      (λ c k, match c with
              | GetThreadId => (k, k)
              | ChangeThreadPriority _ _ => (-1, k)
              end) 9 10
      (machine_of (5 :: 9 :: 5 :: replicate 253 (-1)) (replicate 256 (-1))).
Proof.
  apply (X6_priority_calls_ignore_kernel_answers kernel_of_thread
           (λ c k, match c with
                   | GetThreadId => (k, k)
                   | ChangeThreadPriority _ _ => (-1, k)
                   end) 9 9
           (machine_of (5 :: 9 :: 5 :: replicate 253 (-1)) (replicate 256 (-1))) 10).
  - split; reflexivity.
  - reflexivity.
Defined.

(** X7.  The bulk priority change makes [GetThreadId] its only kernel call
    exactly when every slot of the thread registry holds a negative value
    or the caller's own id. *)
Theorem X7_priority_change_nothing_to_do
  {K : Type} (kstep : syscall → K → Z * K) (k : K) (m : machine) (priority : Z) :
  wf_machine m →
  priority_calls kstep k priority m = [GetThreadId]
  ↔ ∀ v, v ∈ thread_list m → v < 0 ∨ v = (kstep GetThreadId k).1.
Proof.
  intros Hwf. rewrite priority_calls_eq by done. split.
  - intros Heq v Hv.
    destruct (decide (visited (kstep GetThreadId k).1 v)) as [Hvis|Hnot].
    + assert (v ∈ filter (visited (kstep GetThreadId k).1) (thread_list m)) as Hin.
      { by apply list_elem_of_filter. }
      injection Heq as Heq. apply fmap_nil_inv in Heq. rewrite Heq in Hin.
      by apply elem_of_nil in Hin.
    + unfold visited in Hnot.
      destruct (decide (v = (kstep GetThreadId k).1)); [by right | left].
      destruct (decide (v < 0)); [done|]. destruct Hnot. split; [done | lia].
  - intros Hall. f_equal.
    assert (filter (visited (kstep GetThreadId k).1) (thread_list m) = []) as ->;
      [|done].
    destruct (filter _ (thread_list m)) as [|v l'] eqn:Hf; [done|].
    assert (v ∈ filter (visited (kstep GetThreadId k).1) (thread_list m)) as Hin.
    { rewrite Hf. by left. }
    apply list_elem_of_filter in Hin as [[Hne Hpos] Hv].
    destruct (Hall v Hv); [lia | done].
Qed.

Lemma X7_witness :
  priority_calls kernel_of_thread 9 10
    (machine_of (9 :: -2 :: replicate 254 (-1)) (replicate 256 (-1)))
  = [GetThreadId].
Proof.
  apply (X7_priority_change_nothing_to_do kernel_of_thread 9
           (machine_of (9 :: -2 :: replicate 254 (-1)) (replicate 256 (-1))) 10).
  - split; reflexivity.
  - apply Forall_forall. by_evaluation.
Defined.

(** X8.  Unregistering a thread takes it out of the next bulk priority
    change: after [LoaderSysDeleteExternalThreadList(h)] for a registered
    non-negative handle other than the caller's, the priority change makes
    one call fewer for [h] and as many calls as before for every other
    handle; when handles are in at most one slot it makes none for [h]. *)
Theorem X8_delete_then_priority_change
  {K : Type} (kstep : syscall → K → Z * K) (k : K) (m : machine) (h priority : Z) :
  wf_machine m → 0 ≤ h → h ≠ (kstep GetThreadId k).1 → h ∈ thread_list m →
  ∃ m1,
    LoaderSysDeleteExternalThreadList h m = Some (h, m1)
    ∧ S (calls_for h priority (priority_calls kstep k priority m1))
      = calls_for h priority (priority_calls kstep k priority m)
    ∧ (∀ h', h' ≠ h →
             calls_for h' priority (priority_calls kstep k priority m1)
             = calls_for h' priority (priority_calls kstep k priority m))
    ∧ (unique_handles (thread_list m) →
       ChangeThreadPriority h priority ∉ priority_calls kstep k priority m1).
Proof.
  intros Hwf Hh Hme Hin.
  assert (h ≠ -1) as Hs by lia.
  assert (wf_machine (set_thread_list (clear_first h (thread_list m)) m)) as Hwf1.
  { apply wf_set_thread_list; [done | apply clear_first_length]. }
  exists (set_thread_list (clear_first h (thread_list m)) m).
  split.
  { rewrite delete_thread_scan by done. unfold found. by rewrite decide_True. }
  rewrite !calls_for_priority_calls by done. cbn [thread_list set_thread_list].
  split; [|split].
  - destruct (decide (visited (kstep GetThreadId k).1 h)) as [|Hnot].
    + by destruct (occurrences_clear_first_hit h (thread_list m) Hs Hin).
    + destruct Hnot. split; [done | lia].
  - intros h' Hne. rewrite !calls_for_priority_calls by done.
    cbn [thread_list set_thread_list].
    destruct (decide (visited (kstep GetThreadId k).1 h')) as [[_ Hpos]|]; [|done].
    apply occurrences_clear_first_other; [done | lia].
  - intros Hu Hcall. rewrite priority_calls_eq in Hcall by done.
    apply elem_of_cons in Hcall as [Heq | Hcall]; [discriminate Heq|].
    apply calls_visited in Hcall as (_ & _ & Hstill).
    cbn [thread_list set_thread_list] in Hstill.
    destruct (first_slot h (thread_list m) Hin) as (i & Hi & Hlow).
    rewrite (clear_first_lowest h _ i Hi Hlow) in Hstill.
    by apply (unique_handles_gone (thread_list m) i h).
Qed.

Lemma X8_witness :
  ∃ m1,
    LoaderSysDeleteExternalThreadList 5
      (machine_of (5 :: 9 :: 5 :: replicate 253 (-1)) (replicate 256 (-1)))
    = Some (5, m1)
    ∧ calls_for 5 10 (priority_calls kernel_of_thread 9 10 m1) = 1%nat
    ∧ calls_for 9 10 (priority_calls kernel_of_thread 9 10 m1) = 0%nat.
Proof.
  destruct (X8_delete_then_priority_change kernel_of_thread 9
    (machine_of (5 :: 9 :: 5 :: replicate 253 (-1)) (replicate 256 (-1))) 5 10)
    as (m1 & Hr & Hless & Hsame & _);
    [split; reflexivity | lia | simpl; lia | by_evaluation |].
  exists m1. split; [exact Hr|]. split.
  - apply eq_add_S. rewrite Hless. vm_compute. reflexivity.
  - rewrite (Hsame 9); [vm_compute; reflexivity | lia].
Defined.

(** ** More on the hook descriptor *)

Lemma strncmp_from_ext (s1 s1' s2 : nat → ascii) (k n : nat) :
  (∀ j, (k ≤ j < k + n)%nat → s1 j = s1' j) →
  strncmp_from s1 s2 k n = strncmp_from s1' s2 k n.
Proof.
  revert k. induction n as [|n IH]; intros k Hsame; [done|]. simpl.
  rewrite <- (Hsame k) by lia.
  rewrite (IH (S k)); [done|]. intros j Hj. apply Hsame. lia.
Qed.

Lemma to_s32_small (z : Z) : -2 ^ 31 ≤ z < 2 ^ 31 → to_s32 z = z.
Proof. intros Hz. unfold to_s32. rewrite Z.mod_small; lia. Qed.

Lemma to_s32_range (z : Z) : -2 ^ 31 ≤ to_s32 z < 2 ^ 31.
Proof.
  unfold to_s32. pose proof (Z.mod_pos_bound (z + 2 ^ 31) (2 ^ 32)). lia.
Qed.

Lemma to_s32_congruent (z : Z) : (to_s32 z - z) mod 2 ^ 32 = 0.
Proof.
  unfold to_s32. rewrite (Z.mod_eq (z + 2 ^ 31)) by lia.
  replace (z + 2 ^ 31 - 2 ^ 32 * ((z + 2 ^ 31) / 2 ^ 32) - 2 ^ 31 - z)
    with (- ((z + 2 ^ 31) / 2 ^ 32) * 2 ^ 32) by lia.
  apply Z_mod_mult.
Qed.

Lemma checkHookDesc_match (m : machine) (p : Z) :
  starts_with_host0 m p → checkHookDesc p m = (to_s32 (p + 6), m).
Proof.
  intros Hm. unfold checkHookDesc.
  rewrite bool_decide_eq_true_2 by (by apply strncmp_host0).
  by rewrite to_s32_add.
Qed.

Lemma checkHookDesc_no_match (m : machine) (p : Z) :
  ¬ starts_with_host0 m p → checkHookDesc p m = (0, m).
Proof.
  intros Hm. unfold checkHookDesc.
  by rewrite bool_decide_eq_false_2 by (by rewrite strncmp_host0).
Qed.

(** X9.  [checkHookDesc] looks at the six bytes from [hook_desc] on and at
    nothing else: on two memories that agree on these six addresses it
    returns the same value. *)
Theorem X9_checkHookDesc_reads_six_bytes (m1 m2 : machine) (hook_desc : Z) :
  (∀ a, hook_desc ≤ a < hook_desc + 6 → ram m1 a = ram m2 a) →
  (checkHookDesc hook_desc m1).1 = (checkHookDesc hook_desc m2).1.
Proof.
  intros Hsame. unfold checkHookDesc, strncmp.
  rewrite (strncmp_from_ext (chars_at m1 hook_desc) (chars_at m2 hook_desc)).
  - by case_bool_decide.
  - intros j Hj. unfold chars_at. apply Hsame. lia.
Qed.

Lemma X9_witness :
  (checkHookDesc 1048576
     {| thread_list := []; sema_list := [];
        ram := ram_of_string 1048576 "host0:boot.elf" |}).1
  = (checkHookDesc 1048576
       {| thread_list := []; sema_list := [];
          ram := ram_of_string 1048576 "host0:" |}).1.
Proof.
  apply (X9_checkHookDesc_reads_six_bytes
    {| thread_list := []; sema_list := [];
       ram := ram_of_string 1048576 "host0:boot.elf" |}
    {| thread_list := []; sema_list := [];
       ram := ram_of_string 1048576 "host0:" |} 1048576).
  intros a Ha. simpl.
  assert (a = 1048576 ∨ a = 1048577 ∨ a = 1048578 ∨ a = 1048579
          ∨ a = 1048580 ∨ a = 1048581) as Hcases by lia.
  destruct Hcases as [-> | [-> | [-> | [-> | [-> | ->]]]]]; reflexivity.
Defined.

(** X10.  For a pointer in the lower half of the address space, with the
    six bytes below [0x80000000], nothing wraps: on a match the result is
    exactly [hook_desc + 6] and the string found there is the rest of the
    descriptor after ["host0:"], and the result is non-zero exactly when
    the prefix matches. *)
Theorem X10_checkHookDesc_low_pointer (m : machine) (hook_desc : Z) :
  0 ≤ hook_desc → hook_desc + 6 < 2 ^ 31 →
  ((checkHookDesc hook_desc m).1 ≠ 0 ↔ starts_with_host0 m hook_desc)
  ∧ (starts_with_host0 m hook_desc →
     (checkHookDesc hook_desc m).1 = hook_desc + 6
     ∧ ∀ k, chars_at m (checkHookDesc hook_desc m).1 k
            = chars_at m hook_desc (6 + k)).
Proof.
  intros Hlo Hhi.
  assert (to_s32 (hook_desc + 6) = hook_desc + 6) as Hsmall
    by (apply to_s32_small; lia).
  split.
  - split.
    + intros Hnz.
      destruct (decide (strncmp (chars_at m hook_desc) (chars_of "host0:") 6 = 0))
        as [Hz|Hz]; [by apply strncmp_host0|].
      rewrite checkHookDesc_no_match in Hnz; [done|].
      by rewrite <- strncmp_host0.
    + intros Hm. rewrite checkHookDesc_match, Hsmall by done. simpl. lia.
  - intros Hm. rewrite checkHookDesc_match, Hsmall by done. simpl.
    split; [done|]. intros k. unfold chars_at. f_equal. lia.
Qed.

Lemma X10_witness :
  (checkHookDesc 1048576
     {| thread_list := []; sema_list := [];
        ram := ram_of_string 1048576 "host0:boot.elf" |}).1 = 1048582.
Proof.
  destruct (X10_checkHookDesc_low_pointer
    {| thread_list := []; sema_list := [];
       ram := ram_of_string 1048576 "host0:boot.elf" |} 1048576)
    as [_ Hm]; [lia | lia |].
  destruct Hm as [Hr _]; [|exact Hr].
  intros k Hk. do 6 (destruct k as [|k]; [reflexivity|]). lia.
Defined.

(** X11.  A descriptor shorter than the prefix is rejected: when one of
    the first six characters at [hook_desc] is NUL, the empty string
    included, [checkHookDesc] returns 0 and leaves the machine as it
    was. *)
Theorem X11_checkHookDesc_short_string (m : machine) (hook_desc : Z) (k : nat) :
  (k < 6)%nat → chars_at m hook_desc k = zero →
  checkHookDesc hook_desc m = (0, m).
Proof.
  intros Hk Hnul. apply checkHookDesc_no_match. intros Hm.
  apply (host0_no_nul k); [lia|]. by rewrite <- (Hm k Hk).
Qed.

Lemma X11_witness :
  checkHookDesc 1048576
    {| thread_list := []; sema_list := []; ram := ram_of_string 1048576 "host" |}
  = (0, {| thread_list := []; sema_list := [];
           ram := ram_of_string 1048576 "host" |}).
Proof.
  apply (X11_checkHookDesc_short_string
    {| thread_list := []; sema_list := []; ram := ram_of_string 1048576 "host" |}
    1048576 4).
  - lia.
  - reflexivity.
Defined.

(** X12.  The value [checkHookDesc] returns is always a signed 32-bit
    integer, and it is either 0 or congruent to [hook_desc + 6] modulo
    [2^32], whatever integer stands for the pointer. *)
Theorem X12_checkHookDesc_result_range (m : machine) (hook_desc : Z) :
  -2 ^ 31 ≤ (checkHookDesc hook_desc m).1 < 2 ^ 31
  ∧ ((checkHookDesc hook_desc m).1 = 0
     ∨ ((checkHookDesc hook_desc m).1 - (hook_desc + 6)) mod 2 ^ 32 = 0).
Proof.
  unfold checkHookDesc. rewrite to_s32_add. case_bool_decide; simpl.
  - split; [apply to_s32_range | right; apply to_s32_congruent].
  - split; [lia | by left].
Qed.
